(** * Ball maze: a shallow embedding of [js/script.js]

    The physics core of the tilt-controlled ball maze: geometry helpers,
    the cap resolver, the per-ball physics step and the game driver
    ([resetGame], [startGame], [handleDeviceOrientation], [main]).

    JavaScript numbers are modelled as the extended reals with a
    not-a-number element: a finite value carries a real, and the three
    special values of IEEE arithmetic are kept, because the source divides
    by zero in [getAngle].  Rounding is not modelled and zero is unsigned
    (a division by zero follows the sign of the dividend).

    The globals of the script are the fields of [State]; the functions that
    the browser calls ([main] for a frame, [handleDeviceOrientation] for a
    tilt reading, [startGame] and [resetGame] for the buttons) take the
    state and return it.  The frame that [main] requests at its end is the
    next call of [main]; the DOM updates have no part in the physics and
    are left out.  [balls.forEach] is the loop [forEach] over the indices,
    each ball updated in place.  In [collide] the four cap blocks of the
    source, which differ in the axis and in the end of the wall only, are
    the two calls of [resolveCap] behind [mightHitStartCap] and
    [mightHitEndCap] in either branch. *)

From Stdlib Require Import Reals Lra Lia Bool List.
From stdpp Require Import base list.
Import ListNotations.

Local Open Scope R_scope.

(** ** JavaScript numbers *)

Inductive number : Type :=
| Num (r : R)
| PosInf
| NegInf
| NaN.

Definition Rltb (a b : R) : bool := if Rlt_dec a b then true else false.
Definition Rleb (a b : R) : bool := if Rle_dec a b then true else false.
Definition Reqb (a b : R) : bool := if Req_dec_T a b then true else false.

(** Sign of a real: [Lt] negative, [Eq] zero, [Gt] positive. *)
Definition Rsign (r : R) : comparison :=
  if Rltb r 0 then Lt else if Rltb 0 r then Gt else Eq.

Definition sign_of (a : number) : comparison :=
  match a with
  | Num r => Rsign r
  | PosInf => Gt
  | NegInf => Lt
  | NaN => Eq
  end.

Definition sign_mul (s t : comparison) : comparison :=
  match s, t with
  | Eq, _ | _, Eq => Eq
  | Lt, Lt | Gt, Gt => Gt
  | Lt, Gt | Gt, Lt => Lt
  end.

(** An infinity of the given sign; the sign of zero stands for the
    indeterminate forms (0 * Infinity, 0 / 0). *)
Definition inf_of_sign (s : comparison) : number :=
  match s with
  | Lt => NegInf
  | Gt => PosInf
  | Eq => NaN
  end.

Definition num_neg (a : number) : number :=
  match a with
  | Num r => Num (- r)
  | PosInf => NegInf
  | NegInf => PosInf
  | NaN => NaN
  end.

Definition num_add (a b : number) : number :=
  match a, b with
  | Num x, Num y => Num (x + y)
  | NaN, _ | _, NaN => NaN
  | PosInf, NegInf | NegInf, PosInf => NaN
  | PosInf, _ | _, PosInf => PosInf
  | NegInf, _ | _, NegInf => NegInf
  end.

Definition num_sub (a b : number) : number := num_add a (num_neg b).

Definition num_mul (a b : number) : number :=
  match a, b with
  | Num x, Num y => Num (x * y)
  | NaN, _ | _, NaN => NaN
  | _, _ => inf_of_sign (sign_mul (sign_of a) (sign_of b))
  end.

Definition num_div (a b : number) : number :=
  match a, b with
  | NaN, _ | _, NaN => NaN
  | Num x, Num y =>
      if Reqb y 0 then inf_of_sign (Rsign x) else Num (x / y)
  | Num _, _ => Num 0
  | _, Num y =>
      inf_of_sign (sign_mul (sign_of a) (if Reqb y 0 then Gt else Rsign y))
  | _, _ => NaN
  end.

(** [a ** 2] *)
Definition num_sqr (a : number) : number := num_mul a a.

Definition num_lt (a b : number) : bool :=
  match a, b with
  | Num x, Num y => Rltb x y
  | NaN, _ | _, NaN => false
  | NegInf, NegInf | PosInf, _ | _, NegInf => false
  | _, _ => true
  end.

Definition num_le (a b : number) : bool :=
  match a, b with
  | Num x, Num y => Rleb x y
  | NaN, _ | _, NaN => false
  | NegInf, _ | _, PosInf => true
  | _, _ => false
  end.

Definition num_gt (a b : number) : bool := num_lt b a.
Definition num_ge (a b : number) : bool := num_le b a.

(** [a == b] on numbers. *)
Definition num_eq (a b : number) : bool :=
  match a, b with
  | Num x, Num y => Reqb x y
  | PosInf, PosInf | NegInf, NegInf => true
  | _, _ => false
  end.

Declare Scope js_scope.
Delimit Scope js_scope with js.
Bind Scope js_scope with number.
Notation "a + b" := (num_add a b) : js_scope.
Notation "a - b" := (num_sub a b) : js_scope.
Notation "a * b" := (num_mul a b) : js_scope.
Notation "a / b" := (num_div a b) : js_scope.
Notation "- a" := (num_neg a) : js_scope.
Notation "a <? b" := (num_lt a b) : js_scope.
Notation "a <=? b" := (num_le a b) : js_scope.
Notation "a >? b" := (num_gt a b) : js_scope.
Notation "a >=? b" := (num_ge a b) : js_scope.
Notation "a ==? b" := (num_eq a b) (at level 70) : js_scope.

(** A property that is absent reads as [undefined], which arithmetic turns
    into [NaN]. *)
Definition toNumber (o : option number) : number :=
  match o with
  | Some a => a
  | None => NaN
  end.

(** ** The [Math] object *)

Definition Math_PI : number := Num PI.

Definition Math_min (a b : number) : number :=
  match a, b with
  | NaN, _ | _, NaN => NaN
  | _, _ => if num_lt b a then b else a
  end.

Definition Math_max (a b : number) : number :=
  match a, b with
  | NaN, _ | _, NaN => NaN
  | _, _ => if num_lt a b then b else a
  end.

Definition Math_abs (a : number) : number :=
  match a with
  | Num r => Num (Rabs r)
  | PosInf | NegInf => PosInf
  | NaN => NaN
  end.

Definition Math_sign (a : number) : number :=
  match a with
  | NaN => NaN
  | _ => match sign_of a with
         | Lt => Num (-1)
         | Eq => Num 0
         | Gt => Num 1
         end
  end.

Definition Math_sqrt (a : number) : number :=
  match a with
  | Num r => if Rltb r 0 then NaN else Num (sqrt r)
  | PosInf => PosInf
  | NegInf | NaN => NaN
  end.

Definition Math_atan (a : number) : number :=
  match a with
  | Num r => Num (atan r)
  | PosInf => Num (PI / 2)
  | NegInf => Num (- (PI / 2))
  | NaN => NaN
  end.

Definition Math_sin (a : number) : number :=
  match a with
  | Num r => Num (sin r)
  | _ => NaN
  end.

Definition Math_cos (a : number) : number :=
  match a with
  | Num r => Num (cos r)
  | _ => NaN
  end.

(** [Math.minmax]: clamp symmetrically around zero. *)
Definition Math_minmax (value limit : number) : number :=
  Math_max (Math_min value limit) (- limit)%js.

(** ** Data model *)

Module Point.
Record t : Type := mk { x : number; y : number }.
End Point.

(** A ball object.  [resetGame] creates balls without [nextX] and [nextY];
    the physics step adds them. *)
Module Ball.
Record t : Type := mk {
    x : number;
    y : number;
    velocityX : number;
    velocityY : number;
    nextX : option number;
    nextY : option number
  }.

Definition point (b : t) : Point.t := Point.mk (x b) (y b).
Definition velocity (b : t) : Point.t := Point.mk (velocityX b) (velocityY b).
Definition next (b : t) : Point.t :=
    Point.mk (toNumber (nextX b)) (toNumber (nextY b)).

Definition set_velocityX (v : number) (b : t) : t :=
    mk (x b) (y b) v (velocityY b) (nextX b) (nextY b).
Definition set_velocityY (v : number) (b : t) : t :=
    mk (x b) (y b) (velocityX b) v (nextX b) (nextY b).
Definition set_x (v : number) (b : t) : t :=
    mk v (y b) (velocityX b) (velocityY b) (nextX b) (nextY b).
Definition set_y (v : number) (b : t) : t :=
    mk (x b) v (velocityX b) (velocityY b) (nextX b) (nextY b).
Definition set_nextX (v : number) (b : t) : t :=
    mk (x b) (y b) (velocityX b) (velocityY b) (Some v) (nextY b).
Definition set_nextY (v : number) (b : t) : t :=
    mk (x b) (y b) (velocityX b) (velocityY b) (nextX b) (Some v).
End Ball.

Module Wall.
Record t : Type := mk {
    x : number;
    y : number;
    horizontal : bool;
    length : number
  }.
End Wall.

(** A row of the layout table, in grid units. *)
Module WallSpec.
Record t : Type := mk {
    column : number;
    row : number;
    horizontal : bool;
    length : number
  }.
End WallSpec.

Definition pathWidth : number := Num 30.
Definition wallWidth : number := Num 10.
Definition ballSize : number := Num 10.

(** ** Geometry helpers *)

Definition distance2D (p1 p2 : Point.t) : number :=
  Math_sqrt (num_sqr (Point.x p2 - Point.x p1) + num_sqr (Point.y p2 - Point.y p1))%js.

Definition getAngle (p1 p2 : Point.t) : number :=
  let angle := Math_atan ((Point.y p2 - Point.y p1) / (Point.x p2 - Point.x p1))%js in
  if (Point.x p2 - Point.x p1 <? Num 0)%js then (angle + Math_PI)%js else angle.

Definition closestItCanBe (cap ball : Point.t) : Point.t :=
  let angle := getAngle cap ball in
  let deltaX := (Math_cos angle * (wallWidth / Num 2 + ballSize / Num 2))%js in
  let deltaY := (Math_sin angle * (wallWidth / Num 2 + ballSize / Num 2))%js in
  Point.mk (Point.x cap + deltaX)%js (Point.y cap + deltaY)%js.

(** The argument [ball] is the literal [{x, y, velocityX, velocityY}]; the
    result carries all six properties. *)
Definition rollAroundCap (cap : Point.t) (ball : Ball.t) : Ball.t :=
  let impactAngle := getAngle (Ball.point ball) cap in
  let heading := getAngle (Point.mk (Num 0) (Num 0)) (Ball.velocity ball) in
  let impactHeadingAngle := (impactAngle - heading)%js in
  let velocityMagnitude :=
    distance2D (Point.mk (Num 0) (Num 0)) (Ball.velocity ball) in
  let velocityMagnitudeDiagonalToTheImpact :=
    (Math_sin impactHeadingAngle * velocityMagnitude)%js in
  let closestDistance := (wallWidth / Num 2 + ballSize / Num 2)%js in
  let rotationAngle :=
    Math_atan (velocityMagnitudeDiagonalToTheImpact / closestDistance)%js in
  let deltaFromCap :=
    Point.mk
      (Math_cos (impactAngle + Math_PI - rotationAngle) * closestDistance)%js
      (Math_sin (impactAngle + Math_PI - rotationAngle) * closestDistance)%js in
  let x := Ball.x ball in
  let y := Ball.y ball in
  let velocityX := (Ball.x ball - (Point.x cap + Point.x deltaFromCap))%js in
  let velocityY := (Ball.y ball - (Point.y cap + Point.y deltaFromCap))%js in
  let nextX := (x + velocityX)%js in
  let nextY := (y + velocityY)%js in
  Ball.mk x y velocityX velocityY (Some nextX) (Some nextY).

Definition slow (n difference : number) : number :=
  if (Math_abs n <=? difference)%js then Num 0
  else if (n >? difference)%js then (n - difference)%js
  else (n + difference)%js.

(** ** Layout *)

Definition H (c r : R) : WallSpec.t := WallSpec.mk (Num c) (Num r) true (Num 1).
Definition V (c r : R) : WallSpec.t := WallSpec.mk (Num c) (Num r) false (Num 1).

Definition wallTable : list WallSpec.t :=
  [ (* Border *)
    WallSpec.mk (Num 0) (Num 0) true (Num 10);
    WallSpec.mk (Num 0) (Num 0) false (Num 10);
    WallSpec.mk (Num 0) (Num 10) true (Num 10);
    WallSpec.mk (Num 10) (Num 0) false (Num 10);
    (* Horizontal lines, 1st to 10th column *)
    H 0 1; H 0 2; H 0 7;
    H 1 1; H 1 2; H 1 6; H 1 9;
    H 2 1; H 2 4; H 2 6; H 2 9;
    H 3 3; H 3 7; H 3 9;
    H 4 3; H 4 8;
    H 5 2; H 5 7;
    H 6 1; H 6 2; H 6 6;
    H 7 3; H 7 6; H 7 7;
    H 8 1; H 8 4; H 8 7;
    H 9 4; H 9 9;
    (* Vertical lines, 1st to 10th row *)
    V 5 0; V 8 0;
    V 3 1; V 5 1; V 7 1; V 9 1;
    V 3 2; V 7 2;
    V 2 3; V 3 3; V 7 3; V 9 3;
    V 4 4; V 8 4;
    V 1 5; V 8 5; V 9 5;
    V 1 6; V 3 6; V 5 6; V 6 6; V 9 6;
    V 7 7;
    V 1 8; V 4 8; V 5 8; V 7 8; V 8 8;
    V 8 9 ].

Definition toWall (wall : WallSpec.t) : Wall.t :=
  Wall.mk
    (WallSpec.column wall * (pathWidth + wallWidth))%js
    (WallSpec.row wall * (pathWidth + wallWidth))%js
    (WallSpec.horizontal wall)
    (WallSpec.length wall * (pathWidth + wallWidth))%js.

Definition walls : list Wall.t := map toWall wallTable.

(** ** Collision against one wall *)

(** [Object.assign(ball, rolled)]: all six properties of [rolled] overwrite
    those of [ball]. *)
Definition Object_assign (ball rolled : Ball.t) : Ball.t := rolled.

(** The distance test of a cap. *)
Definition hitsCap (cap : Point.t) (ball : Ball.t) : bool :=
  let distance := distance2D cap (Ball.next ball) in
  (distance <? ballSize / Num 2 + wallWidth / Num 2)%js.

(** The block the source repeats for each of the four caps: when the next
    position is closer to the cap than the two radii, the ball is put on the
    circle around the cap and rolled around it. *)
Definition resolveCap (cap : Point.t) (ball : Ball.t) : Ball.t :=
  if hitsCap cap ball then
    let closest := closestItCanBe cap (Ball.next ball) in
    let rolled :=
      rollAroundCap cap
        (Ball.mk (Point.x closest) (Point.y closest)
                 (Ball.velocityX ball) (Ball.velocityY ball) None None) in
    Object_assign ball rolled
  else ball.

(** The windows in which a cap is tested at all. *)
Definition mightHitStartCap (along : Ball.t -> number) (start : number)
    (ball : Ball.t) : bool :=
  (along ball + ballSize / Num 2 >=? start - wallWidth / Num 2)%js
  && (along ball <? start)%js.

Definition mightHitEndCap (along : Ball.t -> number) (stop : number)
    (ball : Ball.t) : bool :=
  (along ball - ballSize / Num 2 <=? stop + wallWidth / Num 2)%js
  && (along ball >? stop)%js.

Definition nextXOf (ball : Ball.t) : number := toNumber (Ball.nextX ball).
Definition nextYOf (ball : Ball.t) : number := toNumber (Ball.nextY ball).

Definition hitHorizontalBody (wall : Wall.t) (ball : Ball.t) : Ball.t :=
  let nextY :=
    if (nextYOf ball <? Wall.y wall)%js
    then (Wall.y wall - wallWidth / Num 2 - ballSize / Num 2)%js
    else (Wall.y wall + wallWidth / Num 2 + ballSize / Num 2)%js in
  let ball := Ball.set_nextY nextY ball in
  let ball := Ball.set_y (nextYOf ball) ball in
  Ball.set_velocityY (- Ball.velocityY ball / Num 6)%js ball.

Definition hitVerticalBody (wall : Wall.t) (ball : Ball.t) : Ball.t :=
  let nextX :=
    if (nextXOf ball <? Wall.x wall)%js
    then (Wall.x wall - wallWidth / Num 2 - ballSize / Num 2)%js
    else (Wall.x wall + wallWidth / Num 2 + ballSize / Num 2)%js in
  let ball := Ball.set_nextX nextX ball in
  let ball := Ball.set_x (nextXOf ball) ball in
  Ball.set_velocityX (- Ball.velocityX ball / Num 6)%js ball.

(** The body of [walls.forEach((wall) => ...)]. *)
Definition collide (wall : Wall.t) (ball : Ball.t) : Ball.t :=
  if Wall.horizontal wall then
    if (nextYOf ball + ballSize / Num 2 >=? Wall.y wall - wallWidth / Num 2)%js
       && (nextYOf ball - ballSize / Num 2 <=? Wall.y wall + wallWidth / Num 2)%js
    then
      let wallStart := Point.mk (Wall.x wall) (Wall.y wall) in
      let wallEnd := Point.mk (Wall.x wall + Wall.length wall)%js (Wall.y wall) in
      let ball :=
        if mightHitStartCap nextXOf (Point.x wallStart) ball
        then resolveCap wallStart ball else ball in
      let ball :=
        if mightHitEndCap nextXOf (Point.x wallEnd) ball
        then resolveCap wallEnd ball else ball in
      if (nextXOf ball >=? Point.x wallStart)%js
         && (nextXOf ball <=? Point.x wallEnd)%js
      then hitHorizontalBody wall ball
      else ball
    else ball
  else
    if (nextXOf ball + ballSize / Num 2 >=? Wall.x wall - wallWidth / Num 2)%js
       && (nextXOf ball - ballSize / Num 2 <=? Wall.x wall + wallWidth / Num 2)%js
    then
      let wallStart := Point.mk (Wall.x wall) (Wall.y wall) in
      let wallEnd := Point.mk (Wall.x wall) (Wall.y wall + Wall.length wall)%js in
      let ball :=
        if mightHitStartCap nextYOf (Point.y wallStart) ball
        then resolveCap wallStart ball else ball in
      let ball :=
        if mightHitEndCap nextYOf (Point.y wallEnd) ball
        then resolveCap wallEnd ball else ball in
      if (nextYOf ball >=? Point.y wallStart)%js
         && (nextYOf ball <=? Point.y wallEnd)%js
      then hitVerticalBody wall ball
      else ball
    else ball.

(** ** The physics step of one ball *)

Definition maxVelocity : number := Num 0.25.

(** The x axis: acceleration, the hard clamp to [-1.5, 1.5], friction, and
    the clamp to [maxVelocity]. *)
Definition updateVelocityX (velocityChangeX frictionDeltaX v : number) : number :=
  if (velocityChangeX ==? Num 0)%js then slow v frictionDeltaX
  else
    let v := (v + velocityChangeX)%js in
    let v := Math_max (Math_min v (Num 1.5)) (Num (-1.5)) in
    let v := (v - Math_sign velocityChangeX * frictionDeltaX)%js in
    Math_minmax v maxVelocity.

(** The y axis: acceleration, friction, and the clamp to [maxVelocity]. *)
Definition updateVelocityY (velocityChangeY frictionDeltaY v : number) : number :=
  if (velocityChangeY ==? Num 0)%js then slow v frictionDeltaY
  else
    let v := (v + velocityChangeY)%js in
    let v := (v - Math_sign velocityChangeY * frictionDeltaY)%js in
    Math_minmax v maxVelocity.

(** What the tick shares between the balls. *)
Record Tilt : Type := mkTilt {
  velocityChangeX : number;
  velocityChangeY : number;
  frictionDeltaX : number;
  frictionDeltaY : number
}.

Definition updateVelocity (t : Tilt) (ball : Ball.t) : Ball.t :=
  let ball :=
    Ball.set_velocityX
      (updateVelocityX (velocityChangeX t) (frictionDeltaX t) (Ball.velocityX ball))
      ball in
  Ball.set_velocityY
    (updateVelocityY (velocityChangeY t) (frictionDeltaY t) (Ball.velocityY ball))
    ball.

Definition setNext (ball : Ball.t) : Ball.t :=
  let ball := Ball.set_nextX (Ball.x ball + Ball.velocityX ball)%js ball in
  Ball.set_nextY (Ball.y ball + Ball.velocityY ball)%js ball.

Definition collideAll (ws : list Wall.t) (ball : Ball.t) : Ball.t :=
  fold_left (fun b w => collide w b) ws ball.

(** "Adjust ball metadata". *)
Definition commit (ball : Ball.t) : Ball.t :=
  let ball := Ball.set_x (Ball.x ball + Ball.velocityX ball)%js ball in
  Ball.set_y (Ball.y ball + Ball.velocityY ball)%js ball.

(** The body of [balls.forEach((ball) => ...)]. *)
Definition stepBall (t : Tilt) (ball : Ball.t) : Ball.t :=
  commit (collideAll walls (setNext (updateVelocity t ball))).

(** [forEach] with a callback that mutates the element it is given: the
    array is visited by index and each slot is updated in place. *)
Definition forEach {A : Type} (f : A -> A) (l : list A) : list A :=
  fold_left (fun acc i => alter f i acc) (seq 0 (List.length l)) l.

(** ** The driver *)

Record State : Type := mkState {
  previousTimestamp : option number;
  gameInProgress : bool;
  accelerationX : option number;
  accelerationY : option number;
  frictionX : option number;
  frictionY : option number;
  balls : list Ball.t
}.

Definition startCell (column row : R) : Ball.t :=
  Ball.mk
    (Num column * (wallWidth + pathWidth) + (wallWidth / Num 2 + pathWidth / Num 2))%js
    (Num row * (wallWidth + pathWidth) + (wallWidth / Num 2 + pathWidth / Num 2))%js
    (Num 0) (Num 0) None None.

Definition resetGame (s : State) : State :=
  mkState None false None None None None
    [ startCell 0 0; startCell 9 0; startCell 0 9; startCell 9 9 ].

Definition startGame (s : State) : State :=
  if negb (gameInProgress s)
  then mkState (previousTimestamp s) true (accelerationX s) (accelerationY s)
               (frictionX s) (frictionY s) (balls s)
  else s.

(** [gamma] is the left/right tilt and [beta] the front/back tilt, in
    degrees. *)
Definition handleDeviceOrientation (gamma beta : number) (s : State) : State :=
  let tiltLR := gamma in
  let tiltFB := beta in
  let rotationFactor := Num 0.8 in
  let rotationY := (tiltLR * rotationFactor)%js in
  let rotationX := (tiltFB * rotationFactor)%js in
  let gravity := Num 0.1 in
  let friction := Num 0.001 in
  mkState (previousTimestamp s) (gameInProgress s)
    (Some (gravity * Math_sin (rotationY / Num 180 * Math_PI))%js)
    (Some (gravity * Math_sin (rotationX / Num 180 * Math_PI))%js)
    (Some (gravity * Math_cos (rotationY / Num 180 * Math_PI) * friction)%js)
    (Some (gravity * Math_cos (rotationX / Num 180 * Math_PI) * friction)%js)
    (balls s).

Definition center : Point.t := Point.mk (Num 400 / Num 2)%js (Num 400 / Num 2)%js.

Definition inGoal (ball : Ball.t) : bool :=
  (distance2D (Ball.point ball) center <? Num 75 / Num 2)%js.

(** The balls as they stand when [main] reaches its win check. *)
Definition physics (s : State) (prev timestamp : number) : list Ball.t :=
  let timeElapsed := ((timestamp - prev) / Num 16)%js in
  match accelerationX s, accelerationY s with
  | Some aX, Some aY =>
      let t :=
        mkTilt (aX * timeElapsed)%js (aY * timeElapsed)%js
               (toNumber (frictionX s) * timeElapsed)%js
               (toNumber (frictionY s) * timeElapsed)%js in
      forEach (stepBall t) (balls s)
  | _, _ => balls s
  end.

Definition main (timestamp : number) (s : State) : State :=
  if negb (gameInProgress s) then s
  else
    match previousTimestamp s with
    | None =>
        mkState (Some timestamp) (gameInProgress s) (accelerationX s)
                (accelerationY s) (frictionX s) (frictionY s) (balls s)
    | Some prev =>
        let balls' := physics s prev timestamp in
        if forallb inGoal balls'
        then mkState (previousTimestamp s) false (accelerationX s)
                     (accelerationY s) (frictionX s) (frictionY s) balls'
        else mkState (Some timestamp) (gameInProgress s) (accelerationX s)
                     (accelerationY s) (frictionX s) (frictionY s) balls'
    end.

(** * Vocabulary of the properties *)

(** ** Numbers seen as reals *)

(** A finite number. *)
Definition isReal (a : number) : Prop := exists r : R, a = Num r.

(** The real a finite number carries. *)
Definition realOf (a : number) : R :=
  match a with
  | Num r => r
  | _ => 0
  end.

Definition finite (a : number) : Prop := a = Num (realOf a).

(** A point with real coordinates. *)
Definition pt (x y : R) : Point.t := Point.mk (Num x) (Num y).

(** ** The description of the velocity update and of [rollAroundCap] *)

(** The update of one axis as the description words it for both axes: add
    the change, clamp hard to [-1.5, 1.5], subtract the friction in the
    direction of the change, clamp symmetrically to [maxVelocity]. *)
Definition clampedUpdate (velocityChange frictionDelta v : number) : number :=
  let v := (v + velocityChange)%js in
  let v := Math_max (Math_min v (Num 1.5)) (Num (-1.5)) in
  let v := (v - Math_sign velocityChange * frictionDelta)%js in
  Math_minmax v maxVelocity.

(** The formula chain of the description, in its own words. *)
Module Described.
Definition origin : Point.t := Point.mk (Num 0) (Num 0).

Definition magnitude (v : Point.t) : number :=
  Math_sqrt (num_sqr (Point.x v) + num_sqr (Point.y v))%js.

Definition closestDistance : number := (wallWidth / Num 2 + ballSize / Num 2)%js.

Definition impactAngle (cap : Point.t) (ball : Ball.t) : number :=
  getAngle (Ball.point ball) cap.

Definition heading (ball : Ball.t) : number :=
  getAngle origin (Ball.velocity ball).

Definition rotationAngle (cap : Point.t) (ball : Ball.t) : number :=
  Math_atan
    (Math_sin (impactAngle cap ball - heading ball)
     * magnitude (Ball.velocity ball) / closestDistance)%js.

Definition deltaFromCap (cap : Point.t) (ball : Ball.t) : Point.t :=
  let a := (impactAngle cap ball + Math_PI - rotationAngle cap ball)%js in
  Point.mk (Math_cos a * closestDistance)%js (Math_sin a * closestDistance)%js.
End Described.

(** ** Iterating [slow] *)

(** [n] applications of [slow] with the same difference. *)
Fixpoint slowTimes (n : nat) (d v : number) : number :=
  match n with
  | O => v
  | S n => slowTimes n d (slow v d)
  end.

(** ** What one tick does to one ball *)

(** The step one tick applies to each ball, from what the balls share. *)
Definition tickBall (s : State) (prev timestamp : number) (ball : Ball.t) : Ball.t :=
  let timeElapsed := ((timestamp - prev) / Num 16)%js in
  match accelerationX s, accelerationY s with
  | Some aX, Some aY =>
      stepBall
        (mkTilt (aX * timeElapsed)%js (aY * timeElapsed)%js
                (toNumber (frictionX s) * timeElapsed)%js
                (toNumber (frictionY s) * timeElapsed)%js)
        ball
  | _, _ => ball
  end.

(** The tilt of one tick, from real gravity, friction and elapsed frames. *)
Definition tiltOf (aX aY fX fY dt : R) : Tilt :=
  mkTilt (Num (aX * dt)) (Num (aY * dt)) (Num (fX * dt)) (Num (fY * dt)).

(** ** Events of a game *)

(** What reaches the driver: a frame, a tilt reading, and the two buttons. *)
Inductive Event : Type :=
| Tick (timestamp : number)
| Orientation (gamma beta : number)
| Start
| Reset.

(** An event calls the function of the source that it names. *)
Definition handle (s : State) (e : Event) : State :=
  match e with
  | Tick timestamp => main timestamp s
  | Orientation gamma beta => handleDeviceOrientation gamma beta s
  | Start => startGame s
  | Reset => resetGame s
  end.

Definition run (events : list Event) (s : State) : State :=
  fold_left handle events s.

(** Frames and tilt readings, but no button. *)
Definition noButton (e : Event) : Prop :=
  match e with
  | Tick _ | Orientation _ _ => True
  | Start | Reset => False
  end.

(** The center of a ball is less than 75/2 away from (200, 200). *)
Definition withinGoal (ball : Ball.t) : Prop :=
  exists x y : R,
    Ball.x ball = Num x /\ Ball.y ball = Num y
    /\ sqrt ((200 - x) ^ 2 + (200 - y) ^ 2) < 75 / 2.

(** The center of a ball is 75/2 or more away from (200, 200). *)
Definition outsideGoal (ball : Ball.t) : Prop :=
  exists x y : R,
    Ball.x ball = Num x /\ Ball.y ball = Num y
    /\ 75 / 2 <= sqrt ((200 - x) ^ 2 + (200 - y) ^ 2).

(** ** Cap deflections and walls out of reach *)

(** Whether [collide] calls [rollAroundCap] for this wall. *)
Definition capDeflection (wall : Wall.t) (ball : Ball.t) : bool :=
  if Wall.horizontal wall then
    (nextYOf ball + ballSize / Num 2 >=? Wall.y wall - wallWidth / Num 2)%js
    && (nextYOf ball - ballSize / Num 2 <=? Wall.y wall + wallWidth / Num 2)%js
    && (let wallStart := Point.mk (Wall.x wall) (Wall.y wall) in
        let wallEnd := Point.mk (Wall.x wall + Wall.length wall)%js (Wall.y wall) in
        let first := mightHitStartCap nextXOf (Point.x wallStart) ball
                     && hitsCap wallStart ball in
        let ball' := if mightHitStartCap nextXOf (Point.x wallStart) ball
                     then resolveCap wallStart ball else ball in
        first || (mightHitEndCap nextXOf (Point.x wallEnd) ball'
                  && hitsCap wallEnd ball'))
  else
    (nextXOf ball + ballSize / Num 2 >=? Wall.x wall - wallWidth / Num 2)%js
    && (nextXOf ball - ballSize / Num 2 <=? Wall.x wall + wallWidth / Num 2)%js
    && (let wallStart := Point.mk (Wall.x wall) (Wall.y wall) in
        let wallEnd := Point.mk (Wall.x wall) (Wall.y wall + Wall.length wall)%js in
        let first := mightHitStartCap nextYOf (Point.y wallStart) ball
                     && hitsCap wallStart ball in
        let ball' := if mightHitStartCap nextYOf (Point.y wallStart) ball
                     then resolveCap wallStart ball else ball in
        first || (mightHitEndCap nextYOf (Point.y wallEnd) ball'
                  && hitsCap wallEnd ball')).

(** Whether any wall of the list deflects the ball around a cap, each wall
    seeing the ball as the walls before it left it. *)
Fixpoint anyDeflection (ws : list Wall.t) (ball : Ball.t) : bool :=
  match ws with
  | [] => false
  | w :: ws => capDeflection w ball || anyDeflection ws (collide w ball)
  end.

(** Whether the tick deflects this ball around a cap. *)
Definition deflectedInTick (s : State) (prev timestamp : number) (ball : Ball.t) : bool :=
  let timeElapsed := ((timestamp - prev) / Num 16)%js in
  match accelerationX s, accelerationY s with
  | Some aX, Some aY =>
      anyDeflection walls
        (setNext
           (updateVelocity
              (mkTilt (aX * timeElapsed)%js (aY * timeElapsed)%js
                      (toNumber (frictionX s) * timeElapsed)%js
                      (toNumber (frictionY s) * timeElapsed)%js)
              ball))
  | _, _ => false
  end.

(** The next position lies outside the rectangle that the wall, thickened
    by the two radii on every side, covers. *)
Definition outOfReach (w : Wall.t) (nx ny : R) : Prop :=
  let wx := realOf (Wall.x w) in
  let wy := realOf (Wall.y w) in
  let wl := realOf (Wall.length w) in
  finite (Wall.x w) /\ finite (Wall.y w) /\ finite (Wall.length w) /\ 0 <= wl
  /\ if Wall.horizontal w
     then nx < wx - 10 \/ wx + wl + 10 < nx \/ ny < wy - 10 \/ wy + 10 < ny
     else nx < wx - 10 \/ wx + 10 < nx \/ ny < wy - 10 \/ wy + wl + 10 < ny.

(** The walls leave [b'] of [b], and none of them deflects it around a cap. *)
Definition quiet (ws : list Wall.t) (b b' : Ball.t) : Prop :=
  collideAll ws b = b' /\ anyDeflection ws b = false.

(** Both components of the velocity are real numbers no larger in
    magnitude than [ux] and [uy]. *)
Definition slowerThan (ux uy : R) (b : Ball.t) : Prop :=
  (exists u : R, Ball.velocityX b = Num u /\ Rabs u <= Rabs ux)
  /\ (exists u : R, Ball.velocityY b = Num u /\ Rabs u <= Rabs uy).

(** ** Separation from the walls *)

(** Distance from a point to the nearest point of the centerline of a
    wall, the segment between its two cap centers. *)
Definition centerlineDistance (wall : Wall.t) (p : Point.t) : number :=
  if Wall.horizontal wall then
    distance2D p
      (Point.mk
         (Math_max (Wall.x wall)
                   (Math_min (Point.x p) (Wall.x wall + Wall.length wall)%js))
         (Wall.y wall))
  else
    distance2D p
      (Point.mk
         (Wall.x wall)
         (Math_max (Wall.y wall)
                   (Math_min (Point.y p) (Wall.y wall + Wall.length wall)%js))).

(** The ball keeps the two radii between its center and the centerline. *)
Definition separated (wall : Wall.t) (ball : Ball.t) : bool :=
  (centerlineDistance wall (Ball.point ball) >=? wallWidth / Num 2 + ballSize / Num 2)%js.

(** ** The game that ends inside a wall *)

(** [n] frames from frame [k] on, one every 256 ms. *)
Definition frames (k n : nat) : list Event :=
  map (fun i => Tick (Num (256 * INR i))) (seq k n).

(** A reading of 37.5 degrees on both axes, which rotates the maze by 30
    degrees. *)
Definition tiltRightDown : Event := Orientation (Num 37.5) (Num 37.5).

(** The game up to its last frame, and its last frame. *)
Definition approach : list Event := [Reset; tiltRightDown; Start] ++ frames 0 80.

Definition lastFrame : number := Num (256 * INR 80).

Definition jointGame : list Event := approach ++ [Tick lastFrame].

(** Cosine of the rotation of the maze, 30 degrees. *)
Definition slope : R := cos (37.5 * 0.8 / 180 * PI).

(** What a frame of the game adds to every ball. *)
Definition pull : Tilt :=
  tiltOf (0.1 * (1 / 2)) (0.1 * (1 / 2)) (0.1 * slope * 0.001) (0.1 * slope * 0.001) 16.

(** The same tilt when 256 s pass between two frames. *)
Definition longPause : Tilt :=
  tiltOf (0.1 * (1 / 2)) (0.1 * (1 / 2)) (0.1 * slope * 0.001) (0.1 * slope * 0.001)
         16000.

(** A ball at [(x, y)] once the tick has set its velocity, saturated on
    both axes, and its next position. *)
Definition launched (x y : R) : Ball.t :=
  Ball.mk (Num x) (Num y) (Num (1 / 4)) (Num (1 / 4))
          (Some (Num (x + 1 / 4))) (Some (Num (y + 1 / 4))).

(** A ball at [(x, y)] with a finite velocity that is not fast to the left
    or upwards. *)
Definition placed (b : Ball.t) (x y : R) : Prop :=
  exists vx vy : R,
    Ball.x b = Num x /\ Ball.y b = Num y
    /\ Ball.velocityX b = Num vx /\ Ball.velocityY b = Num vy
    /\ - (1 / 2) <= vx /\ - (1 / 2) <= vy.

(** Where the four balls are after frame [k]. *)
Definition lane0 (k : nat) (b : Ball.t) : Prop :=
  exists y : R,
    placed b (20 + INR k / 4) y
    /\ ((k <= 39)%nat /\ y = 20 + INR k / 4
        \/ (40 <= k <= 79)%nat /\ 119 / 4 <= y < 30).

Definition lane1 (k : nat) (b : Ball.t) : Prop :=
  exists x : R, placed b x (20 + INR k / 4) /\ 370 < x <= 390.

Definition lane2 (k : nat) (b : Ball.t) : Prop :=
  exists y : R, placed b (20 + INR k / 4) y /\ 370 < y <= 390.

Definition lane3 (k : nat) (b : Ball.t) : Prop :=
  exists x y : R, placed b x y /\ 370 < x <= 390 /\ 370 < y <= 390.

(** The game after frame [k]. *)
Definition rolling (s : State) (k : nat) : Prop :=
  gameInProgress s = true
  /\ previousTimestamp s = Some (Num (256 * INR k))
  /\ accelerationX s = Some (Num (0.1 * (1 / 2)))
  /\ accelerationY s = Some (Num (0.1 * (1 / 2)))
  /\ frictionX s = Some (Num (0.1 * slope * 0.001))
  /\ frictionY s = Some (Num (0.1 * slope * 0.001))
  /\ exists b0 b1 b2 b3 : Ball.t,
       balls s = [b0; b1; b2; b3]
       /\ lane0 k b0 /\ lane1 k b1 /\ lane2 k b2 /\ lane3 k b3.

(** ** States and balls of the examples *)

(** Two running games that share the first ball and the tilt. *)
Definition twoBalls : State :=
  mkState (Some (Num 0)) true (Some (Num 0)) (Some (Num 0)) (Some (Num 0))
          (Some (Num 0)) [ startCell 0 0; startCell 9 0 ].

Definition threeBalls : State :=
  mkState (Some (Num 0)) true (Some (Num 0)) (Some (Num 0)) (Some (Num 0))
          (Some (Num 0)) [ startCell 0 0; startCell 0 9; startCell 9 9 ].

(** A ball at rest in the middle of the maze, and a running game with four
    of them. *)
Definition centerBall : Ball.t := Ball.mk (Num 200) (Num 200) (Num 0) (Num 0) None None.

Definition allInGoal : State :=
  mkState (Some (Num 0)) true None None None None
          [ centerBall; centerBall; centerBall; centerBall ].

(** A game about to be won with the maze held level: three balls rest in
    the middle and one drifts in from the right. *)
Definition arriving : Ball.t :=
  Ball.mk (Num 237.6) (Num 200) (Num (-0.2)) (Num 0) None None.

Definition lastArrival : State :=
  mkState (Some (Num 0)) true (Some (Num 0)) (Some (Num 0))
          (Some (Num 0.0001)) (Some (Num 0.0001))
          [ arriving; centerBall; centerBall; centerBall ].

(** The tilt of a frame that lasts [dt] times 16 ms, with the maze held
    level. *)
Definition held (dt : R) : Tilt := tiltOf 0 0 0.0001 0.0001 dt.

(** A tick with the maze level and no time elapsed. *)
Definition level : Tilt := mkTilt (Num 0) (Num 0) (Num 0) (Num 0).

(** A ball about to meet the wall that hangs from the top border at
    x = 200. *)
Definition towardsWall : Ball.t :=
  Ball.mk (Num 189.8) (Num 20) (Num 0.3) (Num 0) None None.

(** The free end of the wall from (40, 80) to (80, 80), and a ball that
    comes down on it from the upper right. *)
Definition freeEnd : Point.t := Point.mk (Num (40 + 40)) (Num 80).

Definition grazing : Ball.t :=
  Ball.mk (Num 85.72) (Num 71.79) (Num (1 / 4)) (Num (1 / 4)) None None.

Definition grazingNext : Ball.t := launched 85.72 71.79.

(** What the deflection at the free end leaves of the velocity. *)
Definition stretch : R := sqrt (1 + (7 / 200)²).

Definition deflectedVX : R := 6 - 143 / 25 / stretch.

Definition deflectedVY : R := 821 / 100 / stretch - 8.

(** * Properties *)

(** ** Computing with finite numbers *)

Lemma Rltb_true (a b : R) : a < b -> Rltb a b = true.
Proof. intros H. unfold Rltb. destruct (Rlt_dec a b); [reflexivity | contradiction]. Qed.

Lemma Rltb_false (a b : R) : b <= a -> Rltb a b = false.
Proof. intros H. unfold Rltb. destruct (Rlt_dec a b); [lra | reflexivity]. Qed.

Lemma Rleb_true (a b : R) : a <= b -> Rleb a b = true.
Proof. intros H. unfold Rleb. destruct (Rle_dec a b); [reflexivity | contradiction]. Qed.

Lemma Rleb_false (a b : R) : b < a -> Rleb a b = false.
Proof. intros H. unfold Rleb. destruct (Rle_dec a b); [lra | reflexivity]. Qed.

Lemma Reqb_true (a b : R) : a = b -> Reqb a b = true.
Proof. intros H. unfold Reqb. destruct (Req_dec_T a b); [reflexivity | contradiction]. Qed.

Lemma Reqb_false (a b : R) : a <> b -> Reqb a b = false.
Proof. intros H. unfold Reqb. destruct (Req_dec_T a b); [contradiction | reflexivity]. Qed.

Lemma Rltb_spec (a b : R) : Rltb a b = true <-> a < b.
Proof. unfold Rltb. destruct (Rlt_dec a b); split; intros; try discriminate; tauto. Qed.

Lemma Rleb_spec (a b : R) : Rleb a b = true <-> a <= b.
Proof. unfold Rleb. destruct (Rle_dec a b); split; intros; try discriminate; tauto. Qed.

Lemma Rsign_neg (r : R) : r < 0 -> Rsign r = Lt.
Proof. intros H. unfold Rsign. now rewrite Rltb_true. Qed.

Lemma Rsign_pos (r : R) : 0 < r -> Rsign r = Gt.
Proof. intros H. unfold Rsign. rewrite Rltb_false by lra. now rewrite Rltb_true. Qed.

Lemma Rsign_zero (r : R) : r = 0 -> Rsign r = Eq.
Proof. intros H. unfold Rsign. now rewrite !Rltb_false by lra. Qed.

Lemma num_div_Num (a b : R) : b <> 0 -> (Num a / Num b)%js = Num (a / b).
Proof. intros H. cbn. now rewrite Reqb_false. Qed.

Lemma Math_sqrt_Num (r : R) : 0 <= r -> Math_sqrt (Num r) = Num (sqrt r).
Proof. intros H. cbn. now rewrite Rltb_false. Qed.

Lemma Rltb_sum_squares (a b : R) : Rltb (a * a + b * b) 0 = false.
Proof. apply Rltb_false. nra. Qed.

(** Unfolds the arithmetic on finite numbers, leaving the comparisons on
    reals to be decided. *)
Ltac num_cbn :=
  unfold Math_minmax, num_sqr, num_gt, num_ge, num_sub;
  cbn [num_add num_sub num_neg num_mul num_div num_sqr num_lt num_le num_gt num_ge
       num_eq toNumber Math_abs Math_min Math_max Math_minmax Math_atan Math_sqrt
       Math_sin Math_cos Math_sign sign_of inf_of_sign sign_mul Math_PI].

Ltac num_decide :=
  first
    [ rewrite num_div_Num by lra
    | rewrite Rltb_sum_squares
    | rewrite Math_sqrt_Num by lra
    | rewrite Rltb_true by lra | rewrite Rltb_false by lra
    | rewrite Rleb_true by lra | rewrite Rleb_false by lra
    | rewrite Reqb_true by lra | rewrite Reqb_false by lra
    | rewrite Rsign_pos by lra | rewrite Rsign_neg by lra
    | rewrite Rsign_zero by lra ].

Ltac num_eval := num_cbn; repeat (num_decide; num_cbn).

Ltac num_solve := num_eval; first [reflexivity | f_equal; lra].

(** ** [slow] *)

Lemma slow_small (v d : R) : Rabs v <= d -> slow (Num v) (Num d) = Num 0.
Proof. intros H. unfold slow. num_cbn. now rewrite Rleb_true. Qed.

Lemma slow_pos (v d : R) : 0 < d -> d < v -> slow (Num v) (Num d) = Num (v - d).
Proof.
  intros Hd H. unfold slow. num_cbn.
  rewrite Rleb_false by (rewrite Rabs_right; lra).
  now rewrite Rltb_true.
Qed.

Lemma slow_neg (v d : R) : 0 < d -> v < - d -> slow (Num v) (Num d) = Num (v + d).
Proof.
  intros Hd H. unfold slow. num_cbn.
  rewrite Rleb_false by (rewrite Rabs_left; lra).
  now rewrite Rltb_false by lra.
Qed.

Lemma slowTimes_zero (n : nat) (d : R) :
  0 < d -> slowTimes n (Num d) (Num 0) = Num 0.
Proof.
  intros Hd. induction n as [|n IH]; [reflexivity|].
  cbn [slowTimes]. rewrite slow_small; [exact IH|].
  rewrite Rabs_R0. lra.
Qed.

Lemma slowTimes_reaches_zero (n : nat) (d : R) :
  0 < d -> forall v, Rabs v <= INR n * d -> slowTimes n (Num d) (Num v) = Num 0.
Proof.
  intros Hd. induction n as [|n IH]; intros v Hv.
  - cbn in Hv. assert (v = 0) as ->.
    { pose proof (Rabs_pos v). destruct (Req_dec v 0) as [E|E]; [exact E|].
      pose proof (Rabs_pos_lt v E). lra. }
    reflexivity.
  - rewrite S_INR in Hv. cbn [slowTimes].
    destruct (Rle_dec (Rabs v) d) as [Hs|Hs].
    + rewrite slow_small by exact Hs. now apply slowTimes_zero.
    + destruct (Rcase_abs v) as [Hneg|Hpos].
      * rewrite Rabs_left in Hv, Hs by exact Hneg.
        rewrite slow_neg by lra. apply IH. rewrite Rabs_left; lra.
      * rewrite Rabs_right in Hv, Hs by exact Hpos.
        rewrite slow_pos by lra. apply IH. rewrite Rabs_right; lra.
Qed.

Lemma updateVelocity_velocityX (t : Tilt) (b : Ball.t) :
  Ball.velocityX (updateVelocity t b)
  = updateVelocityX (velocityChangeX t) (frictionDeltaX t) (Ball.velocityX b).
Proof. reflexivity. Qed.

Lemma updateVelocity_velocityY (t : Tilt) (b : Ball.t) :
  Ball.velocityY (updateVelocity t b)
  = updateVelocityY (velocityChangeY t) (frictionDeltaY t) (Ball.velocityY b).
Proof. reflexivity. Qed.

Lemma updateVelocityX_flat (fd v : number) :
  updateVelocityX (Num 0) fd v = slow v fd.
Proof. unfold updateVelocityX. num_cbn. now rewrite Reqb_true. Qed.

Lemma updateVelocityY_flat (fd v : number) :
  updateVelocityY (Num 0) fd v = slow v fd.
Proof. unfold updateVelocityY. num_cbn. now rewrite Reqb_true. Qed.

Lemma exists_multiple_above (v d : R) : 0 < d -> exists n : nat, Rabs v <= INR n * d.
Proof.
  intros Hd. pose proof (Rabs_pos v) as Hv.
  destruct (archimed_cor1 (d / (Rabs v + 1))) as [N [HN HN0]].
  { apply Rdiv_lt_0_compat; lra. }
  exists N.
  assert (0 < INR N) as HNpos by (apply lt_0_INR; exact HN0).
  apply (Rmult_lt_compat_l (INR N)) in HN; [|exact HNpos].
  rewrite Rinv_r in HN by lra.
  unfold Rdiv in HN.
  apply (Rmult_lt_compat_r (Rabs v + 1)) in HN; [|lra].
  replace (INR N * (d * / (Rabs v + 1)) * (Rabs v + 1)) with (INR N * d) in HN
    by (field; lra).
  lra.
Qed.

(** ** [rollAroundCap] against its description *)

Lemma num_sub_zero (a : number) : (a - Num 0)%js = a.
Proof. destruct a; cbn; try reflexivity. f_equal. lra. Qed.

Lemma distance2D_origin (v : Point.t) :
  distance2D (Point.mk (Num 0) (Num 0)) v = Described.magnitude v.
Proof.
  unfold distance2D, Described.magnitude. cbn [Point.x Point.y].
  now rewrite !num_sub_zero.
Qed.

(** C2. For every cap and every ball, [rollAroundCap] returns the described
    chain: x and y as given, the velocity the offset of the ball from the
    rotated point on the circle around the cap, and the next position the
    position plus that velocity. *)
Theorem rollAroundCap_described (cap : Point.t) (ball : Ball.t) :
  let rolled := rollAroundCap cap ball in
  let delta := Described.deltaFromCap cap ball in
  Ball.x rolled = Ball.x ball
  /\ Ball.y rolled = Ball.y ball
  /\ Ball.velocityX rolled = (Ball.x ball - (Point.x cap + Point.x delta))%js
  /\ Ball.velocityY rolled = (Ball.y ball - (Point.y cap + Point.y delta))%js
  /\ Ball.nextX rolled = Some (Ball.x ball + Ball.velocityX rolled)%js
  /\ Ball.nextY rolled = Some (Ball.y ball + Ball.velocityY rolled)%js.
Proof.
  cbv zeta. unfold rollAroundCap, Described.deltaFromCap, Described.rotationAngle,
    Described.impactAngle, Described.heading, Described.closestDistance,
    Described.origin.
  cbn [Ball.x Ball.y Ball.velocityX Ball.velocityY Ball.nextX Ball.nextY
       Point.x Point.y].
  rewrite distance2D_origin.
  repeat split; reflexivity.
Qed.

(** ** [resetGame] *)

Lemma startCell_pixels (column row : R) :
  startCell column row
  = Ball.mk (Num (column * 40 + 20)) (Num (row * 40 + 20)) (Num 0) (Num 0) None None.
Proof.
  unfold startCell, wallWidth, pathWidth. num_eval.
  f_equal; f_equal; lra.
Qed.

(** C8. From any state, [resetGame] puts the four balls on the cells (0,0),
    (9,0), (0,9), (9,9), that is at (20,20), (380,20), (20,380), (380,380)
    by x = column * 40 + 20 and y = row * 40 + 20, with zero velocity, and
    leaves the game not running: a tick then changes nothing. *)
Theorem resetGame_places_balls (s : State) :
  balls (resetGame s)
  = [ Ball.mk (Num 20) (Num 20) (Num 0) (Num 0) None None;
      Ball.mk (Num 380) (Num 20) (Num 0) (Num 0) None None;
      Ball.mk (Num 20) (Num 380) (Num 0) (Num 0) None None;
      Ball.mk (Num 380) (Num 380) (Num 0) (Num 0) None None ]
  /\ balls (resetGame s)
     = map (fun cell : R * R =>
              Ball.mk (Num (fst cell * 40 + 20)) (Num (snd cell * 40 + 20))
                      (Num 0) (Num 0) None None)
           [ (0, 0); (9, 0); (0, 9); (9, 9) ]
  /\ gameInProgress (resetGame s) = false
  /\ previousTimestamp (resetGame s) = None
  /\ forall timestamp, main timestamp (resetGame s) = resetGame s.
Proof.
  unfold resetGame. cbn [balls gameInProgress previousTimestamp map fst snd].
  rewrite !startCell_pixels. repeat split.
  repeat (f_equal; try lra).
Qed.

(** ** [getAngle] on degenerate input *)

Lemma getAngle_above (x y1 y2 : R) :
  y1 < y2 -> getAngle (pt x y1) (pt x y2) = Num (PI / 2).
Proof.
  intros H. unfold getAngle, pt. cbn [Point.x Point.y]. num_cbn.
  rewrite Reqb_true by lra. rewrite Rsign_pos by lra. num_cbn.
  now rewrite Rltb_false by lra.
Qed.

Lemma getAngle_below (x y1 y2 : R) :
  y2 < y1 -> getAngle (pt x y1) (pt x y2) = Num (- (PI / 2)).
Proof.
  intros H. unfold getAngle, pt. cbn [Point.x Point.y]. num_cbn.
  rewrite Reqb_true by lra. rewrite Rsign_neg by lra. num_cbn.
  now rewrite Rltb_false by lra.
Qed.

Lemma getAngle_coincident (x y : R) : getAngle (pt x y) (pt x y) = NaN.
Proof.
  unfold getAngle, pt. cbn [Point.x Point.y]. num_cbn.
  rewrite Reqb_true by lra. rewrite Rsign_zero by lra.
  now rewrite Rltb_false by lra.
Qed.

Lemma getAngle_slanted (x1 y1 x2 y2 : R) :
  x1 <> x2 ->
  getAngle (pt x1 y1) (pt x2 y2)
  = Num (atan ((y2 - y1) / (x2 - x1)) + (if Rlt_dec x2 x1 then PI else 0)).
Proof.
  intros H. unfold getAngle, pt. cbn [Point.x Point.y]. num_cbn.
  rewrite Reqb_false by (intros E; apply H; lra). num_cbn.
  destruct (Rlt_dec x2 x1) as [Hlt|Hge].
  - rewrite Rltb_true by lra. num_cbn. reflexivity.
  - rewrite Rltb_false by lra. now rewrite Rplus_0_r.
Qed.

Lemma getAngle_distinct_real (x1 y1 x2 y2 : R) :
  x1 <> x2 \/ y1 <> y2 -> isReal (getAngle (pt x1 y1) (pt x2 y2)).
Proof.
  intros H. destruct (Req_dec x1 x2) as [E|E].
  - subst x2. destruct H as [H|H]; [contradiction|].
    destruct (Rlt_dec y1 y2).
    + rewrite getAngle_above by lra. now eexists.
    + rewrite getAngle_below by lra. now eexists.
  - rewrite getAngle_slanted by exact E. now eexists.
Qed.

Lemma num_add_NaN_r (a : number) : (a + NaN)%js = NaN.
Proof. now destruct a. Qed.

Lemma num_sub_NaN_r (a : number) : (a - NaN)%js = NaN.
Proof. now destruct a. Qed.

Lemma rollAroundCap_zero_velocity (cap : Point.t) (x y : number) :
  let rolled := rollAroundCap cap (Ball.mk x y (Num 0) (Num 0) None None) in
  Ball.velocityX rolled = NaN /\ Ball.velocityY rolled = NaN
  /\ Ball.nextX rolled = Some NaN /\ Ball.nextY rolled = Some NaN.
Proof.
  unfold rollAroundCap. cbv zeta.
  cbn [Ball.x Ball.y Ball.velocityX Ball.velocityY Ball.nextX Ball.nextY
       Ball.velocity Point.x Point.y].
  change (Point.mk (Num 0) (Num 0)) with (pt 0 0).
  rewrite getAngle_coincident.
  repeat first
    [ rewrite num_sub_NaN_r | rewrite num_add_NaN_r
    | progress cbn [Math_sin Math_cos Math_atan num_mul num_div] ].
  repeat split.
Qed.

(** C9, as stated, fails where the two points coincide: the quotient is
    0 / 0 and [getAngle] returns [NaN], not a real number. *)
Lemma getAngle_zero_vector_not_real :
  ~ isReal (getAngle (pt 0 0) (pt 0 0)).
Proof. rewrite getAngle_coincident. intros [r Hr]. discriminate Hr. Qed.

(** C9, amended.  For two points with equal x and different y, [getAngle]
    is the real number PI/2 when the second point has the larger y and
    -PI/2 when it has the smaller; for any two distinct points it is a real
    number.  For two coincident points it is [NaN], and [rollAroundCap]
    with a zero velocity returns [NaN] for the velocity and the next
    position. *)
Theorem getAngle_degenerate (x y1 y2 : R) :
  (y1 < y2 -> getAngle (pt x y1) (pt x y2) = Num (PI / 2))
  /\ (y2 < y1 -> getAngle (pt x y1) (pt x y2) = Num (- (PI / 2)))
  /\ (y1 = y2 -> getAngle (pt x y1) (pt x y2) = NaN)
  /\ (forall x2 : R, x <> x2 \/ y1 <> y2 -> isReal (getAngle (pt x y1) (pt x2 y2)))
  /\ (forall (cap : Point.t) (bx by_ : number),
        let rolled := rollAroundCap cap (Ball.mk bx by_ (Num 0) (Num 0) None None) in
        Ball.velocityX rolled = NaN /\ Ball.velocityY rolled = NaN
        /\ Ball.nextX rolled = Some NaN /\ Ball.nextY rolled = Some NaN).
Proof.
  split; [apply getAngle_above|].
  split; [apply getAngle_below|].
  split; [intros ->; apply getAngle_coincident|].
  split; [intros x2; apply getAngle_distinct_real|].
  intros cap bx by_. apply rollAroundCap_zero_velocity.
Qed.

Lemma getAngle_degenerate_witness :
  0 < 1 /\ getAngle (pt 3 0) (pt 3 1) = Num (PI / 2).
Proof.
  split; [lra|].
  apply (getAngle_degenerate 3 0 1). lra.
Defined.

(** ** The balls do not influence one another *)

Lemma forEach_from_lookup {A : Type} (f : A -> A) (k a : nat) (l : list A) (i : nat) :
  fold_left (fun acc j => alter f j acc) (seq a k) l !! i
  = if decide (a <= i < a + k)%nat then f <$> l !! i else l !! i.
Proof.
  revert a l. induction k as [|k IH]; intros a l; cbn [seq fold_left].
  - destruct (decide _) as [H|H]; [lia | reflexivity].
  - rewrite IH. destruct (decide (i = a)) as [->|Hne].
    + rewrite decide_False by lia. rewrite decide_True by lia.
      apply list_lookup_alter_eq.
    + rewrite list_lookup_alter_ne by congruence.
      destruct (decide (S a <= i < S a + k)%nat);
        [rewrite decide_True by lia | rewrite decide_False by lia]; reflexivity.
Qed.

Lemma forEach_lookup {A : Type} (f : A -> A) (l : list A) (i : nat) :
  forEach f l !! i = f <$> l !! i.
Proof.
  unfold forEach. rewrite forEach_from_lookup.
  destruct (decide _) as [H|H]; [reflexivity|].
  rewrite lookup_ge_None_2 by lia. reflexivity.
Qed.

Lemma forEach_map {A : Type} (f : A -> A) (l : list A) : forEach f l = map f l.
Proof.
  apply list_eq. intros i. rewrite forEach_lookup. symmetry. apply list_lookup_fmap.
Qed.

Lemma physics_lookup (s : State) (prev timestamp : number) (i : nat) :
  physics s prev timestamp !! i = tickBall s prev timestamp <$> balls s !! i.
Proof.
  unfold physics, tickBall.
  destruct (accelerationX s), (accelerationY s);
    try (destruct (balls s !! i); reflexivity).
  apply forEach_lookup.
Qed.

Lemma main_lookup (timestamp : number) (s : State) (i : nat) :
  balls (main timestamp s) !! i
  = if gameInProgress s then
      match previousTimestamp s with
      | Some prev => tickBall s prev timestamp <$> balls s !! i
      | None => balls s !! i
      end
    else balls s !! i.
Proof.
  unfold main. destruct (gameInProgress s); cbn [negb]; [|reflexivity].
  destruct (previousTimestamp s) as [prev|]; [|reflexivity].
  destruct (forallb inGoal _); cbn [balls]; apply physics_lookup.
Qed.

(** C10. Two runs of a tick that agree on the timestamps, the running flag,
    the gravity and the friction, and on the ball at index [i], agree on
    that ball afterwards, whatever the other balls are: position, velocity
    and next position of a ball depend on that ball and the shared inputs
    only (the wall list is a constant). *)
Theorem ball_noninterference (timestamp : number) (s1 s2 : State) (i : nat) :
  previousTimestamp s1 = previousTimestamp s2 ->
  gameInProgress s1 = gameInProgress s2 ->
  accelerationX s1 = accelerationX s2 ->
  accelerationY s1 = accelerationY s2 ->
  frictionX s1 = frictionX s2 ->
  frictionY s1 = frictionY s2 ->
  balls s1 !! i = balls s2 !! i ->
  balls (main timestamp s1) !! i = balls (main timestamp s2) !! i.
Proof.
  intros Hp Hg Hax Hay Hfx Hfy Hb.
  rewrite !main_lookup, Hp, Hg, Hb.
  destruct (gameInProgress s2); [|reflexivity].
  destruct (previousTimestamp s2) as [prev|]; [|reflexivity].
  unfold tickBall. now rewrite Hax, Hay, Hfx, Hfy.
Qed.

Lemma ball_noninterference_witness :
  balls twoBalls !! 0%nat = balls threeBalls !! 0%nat
  /\ balls (main (Num 16) twoBalls) !! 0%nat
     = balls (main (Num 16) threeBalls) !! 0%nat.
Proof.
  split; [reflexivity|].
  apply (ball_noninterference (Num 16) twoBalls threeBalls 0); reflexivity.
Defined.

(** ** Walls out of reach *)

Ltac cmp_cases :=
  repeat match goal with
  | |- context [Rltb ?a ?b] =>
      let E := fresh "E" in
      destruct (Rlt_dec a b) as [E|E];
      [ rewrite (Rltb_true a b E) | rewrite (Rltb_false a b) by lra ];
      cbn [andb orb negb]
  | |- context [Rleb ?a ?b] =>
      let E := fresh "E" in
      destruct (Rle_dec a b) as [E|E];
      [ rewrite (Rleb_true a b E) | rewrite (Rleb_false a b) by lra ];
      cbn [andb orb negb]
  end.

Lemma collide_outOfReach (w : Wall.t) (b : Ball.t) (nx ny : R) :
  Ball.nextX b = Some (Num nx) -> Ball.nextY b = Some (Num ny) ->
  outOfReach w nx ny ->
  collide w b = b /\ capDeflection w b = false.
Proof.
  intros Hnx Hny. destruct w as [wx wy h wl].
  unfold outOfReach, finite. cbn [Wall.x Wall.y Wall.length Wall.horizontal].
  intros (Hx & Hy & Hl & Hpos & Hout).
  rewrite Hx, Hy, Hl.
  unfold collide, capDeflection, mightHitStartCap, mightHitEndCap, nextXOf, nextYOf,
    ballSize, wallWidth.
  cbn [Wall.x Wall.y Wall.length Wall.horizontal Point.x Point.y].
  destruct h;
    repeat (progress (cbn [andb orb negb]; rewrite ?Hnx, ?Hny; num_eval; cmp_cases));
    solve [ split; reflexivity | exfalso; lra ].
Qed.

Lemma collideAll_cons (w : Wall.t) (ws : list Wall.t) (b : Ball.t) :
  collideAll (w :: ws) b = collideAll ws (collide w b).
Proof. reflexivity. Qed.

Lemma collideAll_outOfReach (ws : list Wall.t) (b : Ball.t) (nx ny : R) :
  Ball.nextX b = Some (Num nx) -> Ball.nextY b = Some (Num ny) ->
  Forall (fun w => outOfReach w nx ny) ws ->
  collideAll ws b = b /\ anyDeflection ws b = false.
Proof.
  intros Hnx Hny Hall. induction Hall as [|w ws Hw _ IH]; [now split|].
  destruct (collide_outOfReach w b nx ny Hnx Hny Hw) as [Hc Hd].
  rewrite collideAll_cons. cbn [anyDeflection]. rewrite Hc, Hd. exact IH.
Qed.

Lemma toWall_outOfReach (c r l : R) (h : bool) (nx ny : R) :
  0 <= l ->
  (if h
   then nx < c * 40 - 10 \/ c * 40 + l * 40 + 10 < nx
        \/ ny < r * 40 - 10 \/ r * 40 + 10 < ny
   else nx < c * 40 - 10 \/ c * 40 + 10 < nx
        \/ ny < r * 40 - 10 \/ r * 40 + l * 40 + 10 < ny) ->
  outOfReach (toWall (WallSpec.mk (Num c) (Num r) h (Num l))) nx ny.
Proof.
  intros Hl Hout. unfold outOfReach, toWall, finite, pathWidth, wallWidth.
  cbn [WallSpec.column WallSpec.row WallSpec.horizontal WallSpec.length
       Wall.x Wall.y Wall.horizontal Wall.length num_mul num_add realOf].
  repeat split; try reflexivity; [lra|].
  destruct h; lra.
Qed.

Ltac walls_out_of_reach :=
  unfold walls, wallTable, H, V; cbn [map];
  repeat (constructor; [apply toWall_outOfReach; [lra | cbv iota; lra]|]);
  constructor.

(** The corridor along the top border, between the left border and the
    first wall that hangs from the top. *)
Lemma corridor_free (nx ny : R) :
  10 < nx < 190 -> 10 < ny < 30 ->
  Forall (fun w => outOfReach w nx ny) walls.
Proof. intros Hx Hy. walls_out_of_reach. Qed.

(** ** A wall body that is hit *)

Ltac crunch Hnx Hny :=
  repeat (progress (cbn [andb orb negb]; rewrite ?Hnx, ?Hny; num_eval; cmp_cases)).

Ltac unfold_collide :=
  unfold collide, capDeflection, mightHitStartCap, mightHitEndCap,
    hitHorizontalBody, hitVerticalBody, nextXOf, nextYOf, ballSize, wallWidth;
  cbn [Wall.x Wall.y Wall.length Wall.horizontal Point.x Point.y
       Ball.set_nextX Ball.set_nextY Ball.set_x Ball.set_y
       Ball.set_velocityX Ball.set_velocityY
       Ball.x Ball.y Ball.velocityX Ball.velocityY Ball.nextX Ball.nextY].

Ltac ball_eq Hnx Hny :=
  unfold Ball.set_nextX, Ball.set_nextY, Ball.set_x, Ball.set_y,
    Ball.set_velocityX, Ball.set_velocityY;
  cbn [Ball.set_nextX Ball.set_nextY Ball.set_x Ball.set_y
       Ball.set_velocityX Ball.set_velocityY
       Ball.x Ball.y Ball.velocityX Ball.velocityY Ball.nextX Ball.nextY];
  rewrite ?Hnx, ?Hny;
  f_equal; first [reflexivity | f_equal; lra | f_equal; f_equal; lra].

(** A horizontal wall met from above, between its two ends. *)
Lemma collide_body_from_top (wx wy wl : R) (b : Ball.t) (nx ny : R) :
  Ball.nextX b = Some (Num nx) -> Ball.nextY b = Some (Num ny) ->
  wy - 10 <= ny < wy -> wx <= nx <= wx + wl ->
  collide (Wall.mk (Num wx) (Num wy) true (Num wl)) b
  = Ball.mk (Ball.x b) (Num (wy - 10)) (Ball.velocityX b)
            (- Ball.velocityY b / Num 6)%js
            (Some (Num nx)) (Some (Num (wy - 10)))
  /\ capDeflection (Wall.mk (Num wx) (Num wy) true (Num wl)) b = false.
Proof.
  intros Hnx Hny Hy Hx. unfold_collide. crunch Hnx Hny.
  all: try (exfalso; lra).
  all: split; [|reflexivity].
  all: ball_eq Hnx Hny.
Qed.

(** A vertical wall met from the left, between its two ends. *)
Lemma collide_body_from_left (wx wy wl : R) (b : Ball.t) (nx ny : R) :
  Ball.nextX b = Some (Num nx) -> Ball.nextY b = Some (Num ny) ->
  wx - 10 <= nx < wx -> wy <= ny <= wy + wl ->
  collide (Wall.mk (Num wx) (Num wy) false (Num wl)) b
  = Ball.mk (Num (wx - 10)) (Ball.y b)
            (- Ball.velocityX b / Num 6)%js (Ball.velocityY b)
            (Some (Num (wx - 10))) (Some (Num ny))
  /\ capDeflection (Wall.mk (Num wx) (Num wy) false (Num wl)) b = false.
Proof.
  intros Hnx Hny Hx Hy. unfold_collide. crunch Hnx Hny.
  all: try (exfalso; lra).
  all: split; [|reflexivity].
  all: ball_eq Hnx Hny.
Qed.

(** ** One step of a ball whose way is known *)

Lemma quiet_nil (b : Ball.t) : quiet [] b b.
Proof. now split. Qed.

Lemma quiet_cons (w : Wall.t) (ws : list Wall.t) (b b1 b2 : Ball.t) :
  collide w b = b1 /\ capDeflection w b = false ->
  quiet ws b1 b2 ->
  quiet (w :: ws) b b2.
Proof.
  intros [Hc Hd] [Hall Hany]. split.
  - rewrite collideAll_cons, Hc. exact Hall.
  - cbn [anyDeflection]. rewrite Hd, Hc. exact Hany.
Qed.

Lemma quiet_outOfReach (ws : list Wall.t) (b : Ball.t) (nx ny : R) :
  Ball.nextX b = Some (Num nx) -> Ball.nextY b = Some (Num ny) ->
  Forall (fun w => outOfReach w nx ny) ws -> quiet ws b b.
Proof. apply collideAll_outOfReach. Qed.

Lemma toWall_pixels (c r l : R) (h : bool) :
  toWall (WallSpec.mk (Num c) (Num r) h (Num l))
  = Wall.mk (Num (c * (30 + 10))) (Num (r * (30 + 10))) h (Num (l * (30 + 10))).
Proof. reflexivity. Qed.

Lemma setNext_updateVelocity (t : Tilt) (b : Ball.t) (x y vx vy : R) :
  Ball.x b = Num x -> Ball.y b = Num y ->
  updateVelocityX (velocityChangeX t) (frictionDeltaX t) (Ball.velocityX b) = Num vx ->
  updateVelocityY (velocityChangeY t) (frictionDeltaY t) (Ball.velocityY b) = Num vy ->
  setNext (updateVelocity t b)
  = Ball.mk (Num x) (Num y) (Num vx) (Num vy)
            (Some (Num (x + vx))) (Some (Num (y + vy))).
Proof.
  intros Hx Hy Hvx Hvy. unfold setNext, updateVelocity.
  unfold Ball.set_nextX, Ball.set_nextY, Ball.set_velocityX, Ball.set_velocityY.
  cbn [Ball.x Ball.y Ball.velocityX Ball.velocityY Ball.nextX Ball.nextY].
  now rewrite Hx, Hy, Hvx, Hvy.
Qed.

(** A step in the open: the ball moves by its new velocity. *)
Lemma stepBall_free (t : Tilt) (b : Ball.t) (x y vx vy : R) :
  Ball.x b = Num x -> Ball.y b = Num y ->
  updateVelocityX (velocityChangeX t) (frictionDeltaX t) (Ball.velocityX b) = Num vx ->
  updateVelocityY (velocityChangeY t) (frictionDeltaY t) (Ball.velocityY b) = Num vy ->
  Forall (fun w => outOfReach w (x + vx) (y + vy)) walls ->
  stepBall t b
  = Ball.mk (Num (x + vx)) (Num (y + vy)) (Num vx) (Num vy)
            (Some (Num (x + vx))) (Some (Num (y + vy)))
  /\ anyDeflection walls (setNext (updateVelocity t b)) = false.
Proof.
  intros Hx Hy Hvx Hvy Hfree. unfold stepBall.
  rewrite (setNext_updateVelocity t b x y vx vy Hx Hy Hvx Hvy).
  destruct (collideAll_outOfReach walls
              (Ball.mk (Num x) (Num y) (Num vx) (Num vy)
                       (Some (Num (x + vx))) (Some (Num (y + vy))))
              (x + vx) (y + vy) eq_refl eq_refl Hfree)
    as [Hc Hd].
  rewrite Hc, Hd. now split.
Qed.

Lemma updateVelocityX_saturates (dv fd v : R) :
  0 < dv -> 0 <= fd <= 1.25 -> 0.25 + fd <= v + dv ->
  updateVelocityX (Num dv) (Num fd) (Num v) = Num 0.25.
Proof.
  intros Hdv Hfd Hv. unfold updateVelocityX, maxVelocity.
  repeat (progress (num_eval; cmp_cases));
    first [reflexivity | f_equal; lra | exfalso; lra].
Qed.

Lemma updateVelocityY_saturates (dv fd v : R) :
  0 < dv -> 0 <= fd -> 0.25 + fd <= v + dv ->
  updateVelocityY (Num dv) (Num fd) (Num v) = Num 0.25.
Proof.
  intros Hdv Hfd Hv. unfold updateVelocityY, maxVelocity.
  repeat (progress (num_eval; cmp_cases));
    first [reflexivity | f_equal; lra | exfalso; lra].
Qed.

Lemma updateVelocityY_rest (fd : R) :
  0 <= fd -> updateVelocityY (Num 0) (Num fd) (Num 0) = Num 0.
Proof.
  intros Hfd. rewrite updateVelocityY_flat. apply slow_small.
  rewrite Rabs_R0. exact Hfd.
Qed.

Lemma inGoal_far (b : Ball.t) (x y : R) :
  Ball.x b = Num x -> Ball.y b = Num y -> x < 100 -> inGoal b = false.
Proof.
  intros Hx Hy Hfar.
  unfold inGoal, distance2D, center, Ball.point. cbn [Point.x Point.y].
  rewrite Hx, Hy. num_eval.
  apply Rltb_false.
  rewrite <- (sqrt_square (75 / 2)) by lra.
  set (a := 400 / 2 + - x). set (c := 400 / 2 + - y).
  assert (100 < a) as Ha by (unfold a; lra).
  pose proof (Rle_0_sqr c) as Hc. unfold Rsqr in Hc.
  assert (100 * 100 <= a * a) as Haa by nra.
  apply sqrt_le_1; lra.
Qed.

(** ** [slow], alone and through a tick *)

(** C6. For a real [v] and [d > 0], [slow v d] is 0 when [|v| <= d];
    otherwise it lowers [|v|] by exactly [d] and keeps the sign of [v].
    Iterating [slow] with the same [d] is exactly 0 from some step on.  In
    the velocity update of a tick with no tilt on x, a velocity of 0.2 and
    a friction delta of 0.01 give 0.19; and a tick with no tilt at all
    moves a ball of velocity (0.2, 0) that no wall can reach by 0.19 and
    leaves it the velocity (0.19, 0). *)
Theorem slow_decays_to_zero (v d : R) :
  0 < d ->
  (Rabs v <= d -> slow (Num v) (Num d) = Num 0)
  /\ (d < Rabs v ->
      exists r, slow (Num v) (Num d) = Num r
                /\ Rabs r = Rabs v - d /\ 0 < r * v)
  /\ (exists n : nat, forall m : nat,
        (n <= m)%nat -> slowTimes m (Num d) (Num v) = Num 0)
  /\ (forall (t : Tilt) (b : Ball.t),
        velocityChangeX t = Num 0 -> frictionDeltaX t = Num 0.01 ->
        Ball.velocityX b = Num 0.2 ->
        Ball.velocityX (updateVelocity t b) = Num 0.19)
  /\ (forall (t : Tilt) (x y fy : R),
        velocityChangeX t = Num 0 -> frictionDeltaX t = Num 0.01 ->
        velocityChangeY t = Num 0 -> frictionDeltaY t = Num fy -> 0 <= fy ->
        Forall (fun w => outOfReach w (x + 0.19) (y + 0)) walls ->
        stepBall t (Ball.mk (Num x) (Num y) (Num 0.2) (Num 0) None None)
        = Ball.mk (Num (x + 0.19)) (Num (y + 0)) (Num 0.19) (Num 0)
                  (Some (Num (x + 0.19))) (Some (Num (y + 0)))).
Proof.
  intros Hd. repeat split.
  - apply slow_small.
  - intros Hv. destruct (Rcase_abs v) as [Hneg|Hpos].
    + rewrite Rabs_left in Hv by exact Hneg.
      exists (v + d). rewrite slow_neg by lra.
      rewrite !Rabs_left by lra. repeat split; nra.
    + rewrite Rabs_right in Hv by exact Hpos.
      exists (v - d). rewrite slow_pos by lra.
      rewrite !Rabs_right by lra. repeat split; nra.
  - destruct (exists_multiple_above v d Hd) as [n Hn].
    exists n. intros m Hm. apply slowTimes_reaches_zero; [exact Hd|].
    apply le_INR in Hm. nra.
  - intros t b Hc Hf Hv.
    rewrite updateVelocity_velocityX, Hc, Hf, Hv, updateVelocityX_flat.
    rewrite slow_pos by lra. f_equal. lra.
  - intros t x y fy Hcx Hfx Hcy Hfy Hpos Hfree.
    apply (stepBall_free t _ x y 0.19 0); try reflexivity; try assumption.
    + rewrite Hcx, Hfx, updateVelocityX_flat. cbn [Ball.velocityX].
      rewrite slow_pos by lra. f_equal. lra.
    + rewrite Hcy, Hfy. cbn [Ball.velocityY]. now apply updateVelocityY_rest.
Qed.

Lemma slow_decays_to_zero_witness :
  0 < 0.01
  /\ exists n : nat, forall m : nat,
       (n <= m)%nat -> slowTimes m (Num 0.01) (Num 0.2) = Num 0.
Proof.
  split; [lra|].
  apply (slow_decays_to_zero 0.2 0.01). lra.
Defined.

(** ** Winning stops the game *)

(** The way into the goal from the right, and the goal itself, are clear
    of every wall. *)
Lemma goal_free (nx ny : R) :
  195 < nx < 245 -> 195 < ny < 205 ->
  Forall (fun w => outOfReach w nx ny) walls.
Proof. intros Hx Hy. walls_out_of_reach. Qed.

Lemma physics_held (s : State) (t : R) :
  accelerationX s = Some (Num 0) -> accelerationY s = Some (Num 0) ->
  frictionX s = Some (Num 0.0001) -> frictionY s = Some (Num 0.0001) ->
  physics s (Num 0) (Num (16 * t)) = map (stepBall (held t)) (balls s).
Proof.
  intros Hax Hay Hfx Hfy. unfold physics. rewrite Hax, Hay, Hfx, Hfy.
  num_eval. rewrite forEach_map. unfold held, tiltOf.
  replace ((16 * t + - 0) / 16) with t by field. reflexivity.
Qed.

(** With the maze held level a ball in the open drifts on, slowed by the
    friction. *)
Lemma stepBall_held (t x y v : R) (b : Ball.t) :
  Ball.x b = Num x -> Ball.y b = Num y ->
  Ball.velocityX b = Num v -> Ball.velocityY b = Num 0 ->
  0 < t -> v < - (0.0001 * t) ->
  195 < x + (v + 0.0001 * t) < 245 -> 195 < y < 205 ->
  stepBall (held t) b
  = Ball.mk (Num (x + (v + 0.0001 * t))) (Num (y + 0)) (Num (v + 0.0001 * t)) (Num 0)
            (Some (Num (x + (v + 0.0001 * t)))) (Some (Num (y + 0))).
Proof.
  intros Hx Hy Hvx Hvy Ht Hv Hnx Hny.
  apply (stepBall_free (held t) b x y (v + 0.0001 * t) 0 Hx Hy).
  - unfold held, tiltOf. cbn [velocityChangeX frictionDeltaX]. rewrite Hvx.
    rewrite Rmult_0_l, updateVelocityX_flat. apply slow_neg; lra.
  - unfold held, tiltOf. cbn [velocityChangeY frictionDeltaY]. rewrite Hvy.
    rewrite Rmult_0_l. apply updateVelocityY_rest. lra.
  - apply goal_free; lra.
Qed.

Lemma stepBall_held_rest (t x y : R) (b : Ball.t) :
  Ball.x b = Num x -> Ball.y b = Num y ->
  Ball.velocityX b = Num 0 -> Ball.velocityY b = Num 0 ->
  0 < t -> 195 < x < 245 -> 195 < y < 205 ->
  stepBall (held t) b
  = Ball.mk (Num (x + 0)) (Num (y + 0)) (Num 0) (Num 0)
            (Some (Num (x + 0))) (Some (Num (y + 0))).
Proof.
  intros Hx Hy Hvx Hvy Ht Hnx Hny.
  apply (stepBall_free (held t) b x y 0 0 Hx Hy).
  - unfold held, tiltOf. cbn [velocityChangeX frictionDeltaX]. rewrite Hvx.
    rewrite Rmult_0_l, updateVelocityX_flat. apply slow_small.
    rewrite Rabs_R0. lra.
  - unfold held, tiltOf. cbn [velocityChangeY frictionDeltaY]. rewrite Hvy.
    rewrite Rmult_0_l. apply updateVelocityY_rest. lra.
  - apply goal_free; lra.
Qed.

Lemma inGoal_withinGoal (ball : Ball.t) : withinGoal ball -> inGoal ball = true.
Proof.
  intros (x & y & Hx & Hy & Hd).
  unfold inGoal, distance2D, center, Ball.point. cbn [Point.x Point.y].
  rewrite Hx, Hy. num_eval.
  apply Rltb_true.
  replace ((400 / 2 + - x) * (400 / 2 + - x) + (400 / 2 + - y) * (400 / 2 + - y))
    with ((200 - x) ^ 2 + (200 - y) ^ 2) by field.
  lra.
Qed.

Lemma forallb_inGoal (bs : list Ball.t) :
  Forall withinGoal bs -> forallb inGoal bs = true.
Proof.
  induction 1 as [|b bs Hb _ IH]; [reflexivity|].
  cbn [forallb]. now rewrite inGoal_withinGoal, IH.
Qed.

Lemma stopped_stays (events : list Event) (s : State) :
  Forall noButton events ->
  gameInProgress s = false ->
  gameInProgress (run events s) = false /\ balls (run events s) = balls s.
Proof.
  intros Hev. revert s. induction Hev as [|e events He _ IH]; intros s Hs.
  - now split.
  - cbn [run fold_left]. destruct e as [timestamp|gamma beta| |]; cbn in He;
      try contradiction; cbn [handle].
    + unfold main. rewrite Hs. cbn [negb]. now apply IH.
    + destruct (IH (handleDeviceOrientation gamma beta s) Hs) as [H1 H2].
      split; [exact H1|]. exact H2.
Qed.

(** C7, amended.  When a tick reaches its win check with every ball less
    than 37.5 from (200, 200), the game stops being in progress, and
    whatever frames and tilt readings follow, for as long as neither Start
    nor Reset is pressed, the balls stay as that tick left them: position
    and velocity alike. *)
Theorem win_stops_the_balls (s : State) (prev timestamp : number) (events : list Event) :
  gameInProgress s = true ->
  previousTimestamp s = Some prev ->
  Forall withinGoal (physics s prev timestamp) ->
  Forall noButton events ->
  let won := main timestamp s in
  gameInProgress won = false
  /\ balls won = physics s prev timestamp
  /\ gameInProgress (run events won) = false
  /\ balls (run events won) = balls won.
Proof.
  intros Hg Hp Hwin Hev won.
  assert (gameInProgress won = false /\ balls won = physics s prev timestamp)
    as [Hstop Hballs].
  { unfold won, main. rewrite Hg, Hp. cbn [negb].
    rewrite forallb_inGoal by exact Hwin. now split. }
  repeat split; try assumption; now apply stopped_stays.
Qed.

Lemma centerBall_withinGoal : withinGoal centerBall.
Proof.
  exists 200, 200. repeat split.
  replace ((200 - 200) ^ 2 + (200 - 200) ^ 2) with 0 by lra.
  rewrite sqrt_0. lra.
Qed.

Lemma win_stops_the_balls_witness :
  let won := main (Num 16) allInGoal in
  let later := [ Tick (Num 32); Orientation (Num 10) (Num 10); Tick (Num 48) ] in
  gameInProgress allInGoal = true
  /\ gameInProgress won = false
  /\ balls (run later won) = balls won.
Proof.
  intros won later. split; [reflexivity|].
  destruct (win_stops_the_balls allInGoal (Num 0) (Num 16) later) as (H1 & _ & _ & H4).
  - reflexivity.
  - reflexivity.
  - repeat constructor; apply centerBall_withinGoal.
  - repeat constructor.
  - split; [exact H1 | exact H4].
Defined.

Lemma withinGoal_mk (x y : R) (vx vy : number) (nx ny : option number) :
  (200 - x) ^ 2 + (200 - y) ^ 2 < (75 / 2) ^ 2 ->
  withinGoal (Ball.mk (Num x) (Num y) vx vy nx ny).
Proof.
  intros Hd. exists x, y. repeat split.
  replace (75 / 2) with (sqrt ((75 / 2) ^ 2)).
  - apply sqrt_lt_1_alt. split; [|exact Hd].
    apply Rplus_le_le_0_compat; apply pow2_ge_0.
  - replace ((75 / 2) ^ 2) with ((75 / 2) * (75 / 2)) by ring.
    apply sqrt_square. lra.
Qed.

Lemma main_balls (s : State) (prev timestamp : number) :
  gameInProgress s = true -> previousTimestamp s = Some prev ->
  balls (main timestamp s) = physics s prev timestamp.
Proof.
  intros Hg Hp. unfold main. rewrite Hg, Hp. cbn [negb].
  now destruct (forallb inGoal (physics s prev timestamp)).
Qed.

Lemma lastArrival_tick :
  physics lastArrival (Num 0) (Num 16)
  = [ Ball.mk (Num (237.6 + (-0.2 + 0.0001 * 1))) (Num (200 + 0))
              (Num (-0.2 + 0.0001 * 1)) (Num 0)
              (Some (Num (237.6 + (-0.2 + 0.0001 * 1)))) (Some (Num (200 + 0)));
      Ball.mk (Num (200 + 0)) (Num (200 + 0)) (Num 0) (Num 0)
              (Some (Num (200 + 0))) (Some (Num (200 + 0)));
      Ball.mk (Num (200 + 0)) (Num (200 + 0)) (Num 0) (Num 0)
              (Some (Num (200 + 0))) (Some (Num (200 + 0)));
      Ball.mk (Num (200 + 0)) (Num (200 + 0)) (Num 0) (Num 0)
              (Some (Num (200 + 0))) (Some (Num (200 + 0))) ].
Proof.
  replace (Num 16) with (Num (16 * 1)) by (f_equal; lra).
  rewrite physics_held by reflexivity.
  unfold lastArrival. cbn [balls map].
  rewrite (stepBall_held 1 237.6 200 (-0.2) arriving)
    by first [reflexivity | lra].
  rewrite (stepBall_held_rest 1 200 200 centerBall)
    by first [reflexivity | lra].
  reflexivity.
Qed.

(** C7, as stated, fails: [startGame] asks for nothing but a game that is
    not in progress, and a game that is won is not in progress.  The maze
    is held level, three balls rest in the middle and one drifts in from
    the right; the frame at 16 ms wins the game.  Start is pressed, no
    reset, and the frame at 32 ms moves that ball on from x = 237.4001 to
    x = 237.2004. *)
Lemma restart_moves_the_balls :
  let won := main (Num 16) lastArrival in
  let later := [ Start; Tick (Num 32) ] in
  gameInProgress lastArrival = true
  /\ Forall withinGoal (physics lastArrival (Num 0) (Num 16))
  /\ gameInProgress won = false
  /\ Forall (fun e => e <> Reset) later
  /\ (exists b : Ball.t,
        balls won !! 0%nat = Some b
        /\ Ball.x b = Num 237.4001 /\ Ball.velocityX b = Num (-0.1999))
  /\ (exists b : Ball.t,
        balls (run later won) !! 0%nat = Some b
        /\ Ball.x b = Num 237.2004 /\ Ball.velocityX b = Num (-0.1997))
  /\ balls (run later won) <> balls won.
Proof.
  intros won later.
  assert (Forall withinGoal (physics lastArrival (Num 0) (Num 16))) as Hin.
  { rewrite lastArrival_tick. repeat constructor; apply withinGoal_mk; nra. }
  assert (won = mkState (Some (Num 0)) false (Some (Num 0)) (Some (Num 0))
                        (Some (Num 0.0001)) (Some (Num 0.0001))
                        (physics lastArrival (Num 0) (Num 16))) as Hwon.
  { unfold won, main. cbn [gameInProgress previousTimestamp lastArrival negb].
    rewrite (forallb_inGoal _ Hin). reflexivity. }
  assert (balls (run later won)
          = map (stepBall (held 2)) (physics lastArrival (Num 0) (Num 16)))
    as Hlater.
  { unfold later. cbn [run fold_left handle]. rewrite Hwon.
    unfold startGame. cbn [gameInProgress negb previousTimestamp accelerationX
                           accelerationY frictionX frictionY balls].
    rewrite (main_balls _ (Num 0)) by reflexivity.
    replace (Num 32) with (Num (16 * 2)) by (f_equal; lra).
    now rewrite physics_held by reflexivity. }
  assert (exists b : Ball.t,
             balls (run later won) !! 0%nat = Some b
             /\ Ball.x b = Num 237.2004 /\ Ball.velocityX b = Num (-0.1997))
    as Hmoved.
  { rewrite Hlater, lastArrival_tick. cbn [map].
    erewrite (stepBall_held 2 (237.6 + (-0.2 + 0.0001 * 1)) (200 + 0)
                            (-0.2 + 0.0001 * 1))
      by first [reflexivity | lra].
    eexists. split; [reflexivity|]. cbn [Ball.x Ball.velocityX].
    split; f_equal; lra. }
  assert (exists b : Ball.t,
             balls won !! 0%nat = Some b
             /\ Ball.x b = Num 237.4001 /\ Ball.velocityX b = Num (-0.1999))
    as Hstill.
  { rewrite Hwon. cbn [balls]. rewrite lastArrival_tick.
    eexists. split; [reflexivity|]. cbn [Ball.x Ball.velocityX].
    split; f_equal; lra. }
  split; [reflexivity|]. split; [exact Hin|].
  split; [now rewrite Hwon|].
  split; [repeat constructor; discriminate|].
  split; [exact Hstill|]. split; [exact Hmoved|].
  intros Heq. destruct Hmoved as (b & Hb & Hx & _).
  destruct Hstill as (b' & Hb' & Hx' & _).
  rewrite Heq, Hb' in Hb. injection Hb as <-.
  rewrite Hx' in Hx. injection Hx as Hx. lra.
Qed.

(** ** Walls that are passed or hit *)

Lemma hitsCap_far (cx cy : R) (b : Ball.t) (nx ny : R) :
  Ball.nextX b = Some (Num nx) -> Ball.nextY b = Some (Num ny) ->
  100 <= (nx - cx) * (nx - cx) + (ny - cy) * (ny - cy) ->
  hitsCap (Point.mk (Num cx) (Num cy)) b = false.
Proof.
  intros Hnx Hny Hfar. unfold hitsCap, distance2D, Ball.next, ballSize, wallWidth.
  cbn [Point.x Point.y]. rewrite Hnx, Hny. num_eval.
  apply Rltb_false.
  replace (10 / 2 + 10 / 2) with 10 by lra.
  rewrite <- (sqrt_square 10) by lra.
  apply sqrt_le_1; [lra | nra | unfold Rminus in Hfar; lra].
Qed.

(** A horizontal wall whose start cap is passed at a distance. *)
Lemma collide_start_cap_far (wx wy wl : R) (b : Ball.t) (nx ny : R) :
  Ball.nextX b = Some (Num nx) -> Ball.nextY b = Some (Num ny) ->
  nx < wx -> 0 <= wl ->
  100 <= (nx - wx) * (nx - wx) + (ny - wy) * (ny - wy) ->
  collide (Wall.mk (Num wx) (Num wy) true (Num wl)) b = b
  /\ capDeflection (Wall.mk (Num wx) (Num wy) true (Num wl)) b = false.
Proof.
  intros Hnx Hny Hx Hl Hfar.
  unfold collide, capDeflection, resolveCap.
  cbn [Wall.x Wall.y Wall.length Wall.horizontal Point.x Point.y].
  rewrite (hitsCap_far wx wy b nx ny Hnx Hny Hfar).
  unfold mightHitStartCap, mightHitEndCap, nextXOf, nextYOf, ballSize, wallWidth.
  repeat (progress (cbn [andb orb negb]; rewrite ?Hnx, ?Hny; num_eval; cmp_cases));
    solve [ split; reflexivity | exfalso; lra ].
Qed.

Lemma collide_toWall_from_top (c r l : R) (b : Ball.t) (nx ny : R) :
  Ball.nextX b = Some (Num nx) -> Ball.nextY b = Some (Num ny) ->
  r * 40 - 10 <= ny < r * 40 -> c * 40 <= nx <= c * 40 + l * 40 ->
  collide (toWall (WallSpec.mk (Num c) (Num r) true (Num l))) b
  = Ball.mk (Ball.x b) (Num (r * 40 - 10)) (Ball.velocityX b)
            (- Ball.velocityY b / Num 6)%js
            (Some (Num nx)) (Some (Num (r * 40 - 10)))
  /\ capDeflection (toWall (WallSpec.mk (Num c) (Num r) true (Num l))) b = false.
Proof.
  intros Hnx Hny Hy Hx. rewrite toWall_pixels.
  destruct (collide_body_from_top (c * (30 + 10)) (r * (30 + 10)) (l * (30 + 10))
              b nx ny Hnx Hny ltac:(lra) ltac:(lra)) as [Hc Hd].
  rewrite Hc, Hd. split; [|reflexivity]. f_equal; f_equal; try f_equal; lra.
Qed.

Lemma collide_toWall_from_left (c r l : R) (b : Ball.t) (nx ny : R) :
  Ball.nextX b = Some (Num nx) -> Ball.nextY b = Some (Num ny) ->
  c * 40 - 10 <= nx < c * 40 -> r * 40 <= ny <= r * 40 + l * 40 ->
  collide (toWall (WallSpec.mk (Num c) (Num r) false (Num l))) b
  = Ball.mk (Num (c * 40 - 10)) (Ball.y b)
            (- Ball.velocityX b / Num 6)%js (Ball.velocityY b)
            (Some (Num (c * 40 - 10))) (Some (Num ny))
  /\ capDeflection (toWall (WallSpec.mk (Num c) (Num r) false (Num l))) b = false.
Proof.
  intros Hnx Hny Hx Hy. rewrite toWall_pixels.
  destruct (collide_body_from_left (c * (30 + 10)) (r * (30 + 10)) (l * (30 + 10))
              b nx ny Hnx Hny ltac:(lra) ltac:(lra)) as [Hc Hd].
  rewrite Hc, Hd. split; [|reflexivity]. f_equal; f_equal; try f_equal; lra.
Qed.

Lemma collide_toWall_start_cap_far (c r l : R) (b : Ball.t) (nx ny : R) :
  Ball.nextX b = Some (Num nx) -> Ball.nextY b = Some (Num ny) ->
  nx < c * 40 -> 0 <= l ->
  100 <= (nx - c * 40) * (nx - c * 40) + (ny - r * 40) * (ny - r * 40) ->
  collide (toWall (WallSpec.mk (Num c) (Num r) true (Num l))) b = b
  /\ capDeflection (toWall (WallSpec.mk (Num c) (Num r) true (Num l))) b = false.
Proof.
  intros Hnx Hny Hx Hl Hfar. rewrite toWall_pixels.
  apply (collide_start_cap_far _ _ _ b nx ny Hnx Hny); [lra | lra |].
  replace (c * (30 + 10)) with (c * 40) by lra.
  replace (r * (30 + 10)) with (r * 40) by lra. exact Hfar.
Qed.

Ltac wall_miss :=
  eapply collide_outOfReach;
  [ reflexivity | reflexivity | apply toWall_outOfReach; [lra | cbv iota; lra] ].

Ltac wall_top :=
  eapply collide_toWall_from_top; [ reflexivity | reflexivity | lra | lra ].

Ltac wall_left :=
  eapply collide_toWall_from_left; [ reflexivity | reflexivity | lra | lra ].

Ltac wall_far :=
  eapply collide_toWall_start_cap_far; [ reflexivity | reflexivity | lra | lra | nra ].

Ltac walk :=
  unfold walls, wallTable, H, V; cbn [map];
  repeat (eapply quiet_cons;
          [ first [ wall_miss | wall_top | wall_left | wall_far ]
          | cbn [Ball.x Ball.y Ball.velocityX Ball.velocityY Ball.nextX Ball.nextY] ]);
  apply quiet_nil.

(** ** A game that ends inside a wall

    After a reset the device is tilted to the right and down, the game is
    started, and a frame arrives every 256 ms.  The first ball rolls
    diagonally onto the wall from (0, 40) to (40, 40), slides along its top
    and reaches x = 40, where the next segment begins. *)

Ltac ball_norm :=
  num_eval; f_equal;
  repeat first [apply (f_equal (@Some number)) | apply (f_equal Num)]; lra.

(** The ball slides to the right on top of the wall from (0, 40) to
    (40, 40). *)
Lemma slide_lane (x y : R) :
  119 / 4 <= x <= 79 / 2 -> 119 / 4 <= y < 30 ->
  quiet walls (launched x y)
    (Ball.mk (Num x) (Num 30) (Num (1 / 4)) (Num (- (1 / 24)))
             (Some (Num (x + 1 / 4))) (Some (Num 30))).
Proof.
  intros Hx Hy.
  assert (exists b2, quiet walls (launched x y) b2
            /\ b2 = Ball.mk (Num x) (Num 30) (Num (1 / 4)) (Num (- (1 / 24)))
                            (Some (Num (x + 1 / 4))) (Some (Num 30)))
    as (b2 & Hq & ->); [|exact Hq].
  eexists. split; [unfold launched; walk | ball_norm].
Qed.

(** The ball comes down on the joint at (40, 40): both segments push it
    back and both invert its vertical velocity. *)
Lemma joint_lane (y : R) :
  119 / 4 <= y < 30 ->
  quiet walls (launched (159 / 4) y)
    (Ball.mk (Num (159 / 4)) (Num 30) (Num (1 / 4)) (Num (1 / 144))
             (Some (Num 40)) (Some (Num 30))).
Proof.
  intros Hy.
  assert (exists b2, quiet walls (launched (159 / 4) y) b2
            /\ b2 = Ball.mk (Num (159 / 4)) (Num 30) (Num (1 / 4)) (Num (1 / 144))
                            (Some (Num 40)) (Some (Num 30)))
    as (b2 & Hq & ->); [|exact Hq].
  eexists. split; [unfold launched; walk | ball_norm].
Qed.

Ltac lane_by_walk :=
  match goal with
  | |- quiet walls ?b ?b' =>
      let H := fresh "Hq" in
      assert (exists b2, quiet walls b b2 /\ b2 = b') as (? & H & ->);
      [ eexists; split; [unfold launched; walk | unfold launched; ball_norm]
      | exact H ]
  end.

(** Along the right border, first clear of it and then against it. *)
Lemma right_lane_free (x y : R) :
  370 < x -> x + 1 / 4 < 390 -> 10 < y <= 40 ->
  quiet walls (launched x y) (launched x y).
Proof. intros Hx Hn Hy. lane_by_walk. Qed.

Lemma right_lane_hit (x y : R) :
  x <= 390 -> 390 <= x + 1 / 4 -> 10 < y <= 40 ->
  quiet walls (launched x y)
    (Ball.mk (Num 390) (Num y) (Num (- (1 / 24))) (Num (1 / 4))
             (Some (Num 390)) (Some (Num (y + 1 / 4)))).
Proof. intros Hx Hn Hy. lane_by_walk. Qed.

(** Along the bottom border. *)
Lemma bottom_lane_free (x y : R) :
  10 < x <= 40 -> 370 < y -> y + 1 / 4 < 390 ->
  quiet walls (launched x y) (launched x y).
Proof. intros Hx Hy Hn. lane_by_walk. Qed.

Lemma bottom_lane_hit (x y : R) :
  10 < x <= 40 -> y <= 390 -> 390 <= y + 1 / 4 ->
  quiet walls (launched x y)
    (Ball.mk (Num x) (Num 390) (Num (1 / 4)) (Num (- (1 / 24)))
             (Some (Num (x + 1 / 4))) (Some (Num 390))).
Proof. intros Hx Hy Hn. lane_by_walk. Qed.

(** In the corner of the right and the bottom border. *)
Lemma corner_lane_free (x y : R) :
  370 < x -> x + 1 / 4 < 390 -> 370 < y -> y + 1 / 4 < 390 ->
  quiet walls (launched x y) (launched x y).
Proof. intros Hx Hnx Hy Hny. lane_by_walk. Qed.

Lemma corner_lane_right (x y : R) :
  x <= 390 -> 390 <= x + 1 / 4 -> 370 < y -> y + 1 / 4 < 390 ->
  quiet walls (launched x y)
    (Ball.mk (Num 390) (Num y) (Num (- (1 / 24))) (Num (1 / 4))
             (Some (Num 390)) (Some (Num (y + 1 / 4)))).
Proof. intros Hx Hnx Hy Hny. lane_by_walk. Qed.

Lemma corner_lane_bottom (x y : R) :
  370 < x -> x + 1 / 4 < 390 -> y <= 390 -> 390 <= y + 1 / 4 ->
  quiet walls (launched x y)
    (Ball.mk (Num x) (Num 390) (Num (1 / 4)) (Num (- (1 / 24)))
             (Some (Num (x + 1 / 4))) (Some (Num 390))).
Proof. intros Hx Hnx Hy Hny. lane_by_walk. Qed.

Lemma corner_lane_both (x y : R) :
  x <= 390 -> 390 <= x + 1 / 4 -> y <= 390 -> 390 <= y + 1 / 4 ->
  quiet walls (launched x y)
    (Ball.mk (Num 390) (Num 390) (Num (- (1 / 24))) (Num (- (1 / 24)))
             (Some (Num 390)) (Some (Num 390))).
Proof. intros Hx Hnx Hy Hny. lane_by_walk. Qed.

Lemma sin_thirty_degrees : sin (37.5 * 0.8 / 180 * PI) = 1 / 2.
Proof. replace (37.5 * 0.8 / 180 * PI) with (PI / 6) by lra. apply sin_PI6. Qed.

Lemma slope_bounds : 0 <= slope <= 1.
Proof.
  unfold slope. replace (37.5 * 0.8 / 180 * PI) with (PI / 6) by lra.
  split; [|apply COS_bound].
  rewrite cos_PI6. pose proof (sqrt_pos 3). lra.
Qed.

Lemma launch (b : Ball.t) (x y : R) :
  placed b x y -> setNext (updateVelocity pull b) = launched x y.
Proof.
  intros (vx & vy & Hx & Hy & Hvx & Hvy & Hbx & Hby).
  pose proof slope_bounds as Hs. unfold launched.
  replace (Num (1 / 4)) with (Num 0.25) by (f_equal; lra).
  replace (x + 1 / 4) with (x + 0.25) by lra.
  replace (y + 1 / 4) with (y + 0.25) by lra.
  apply setNext_updateVelocity; try assumption.
  - cbn [pull tiltOf velocityChangeX frictionDeltaX]. rewrite Hvx.
    apply updateVelocityX_saturates; nra.
  - cbn [pull tiltOf velocityChangeY frictionDeltaY]. rewrite Hvy.
    apply updateVelocityY_saturates; nra.
Qed.

Lemma stepBall_by_lane (b b2 : Ball.t) (x y : R) :
  placed b x y -> quiet walls (launched x y) b2 ->
  stepBall pull b = commit b2
  /\ anyDeflection walls (setNext (updateVelocity pull b)) = false.
Proof.
  intros Hp [Hall Hany]. unfold stepBall.
  rewrite (launch b x y Hp), Hall, Hany. now split.
Qed.

Lemma placed_mk (x y vx vy : R) (nx ny : option number) :
  - (1 / 2) <= vx -> - (1 / 2) <= vy ->
  placed (Ball.mk (Num x) (Num y) (Num vx) (Num vy) nx ny) x y.
Proof. intros Hx Hy. exists vx, vy. repeat split; assumption. Qed.

Lemma commit_finite (x y vx vy : R) (nx ny : option number) :
  commit (Ball.mk (Num x) (Num y) (Num vx) (Num vy) nx ny)
  = Ball.mk (Num (x + vx)) (Num (y + vy)) (Num vx) (Num vy) nx ny.
Proof. reflexivity. Qed.

Lemma INR_le_79 (k : nat) : (k <= 79)%nat -> 0 <= INR k <= 79.
Proof.
  intros H. split; [apply pos_INR|].
  apply le_INR in H. replace (INR 79) with 79 in H by (cbn [INR]; lra). exact H.
Qed.

Lemma lane0_step (k : nat) (b : Ball.t) :
  lane0 k b -> (k < 79)%nat ->
  exists b', stepBall pull b = b' /\ lane0 (S k) b'
             /\ anyDeflection walls (setNext (updateVelocity pull b)) = false.
Proof.
  intros (y & Hp & Hy) Hk. pose proof (INR_le_79 k ltac:(lia)) as Hr.
  assert (INR (S k) = INR k + 1) as HS by apply S_INR.
  destruct (le_lt_dec k 38) as [Hfree|Hslide].
  - (* clear of every wall *)
    destruct Hy as [[_ ->]|[Hge _]]; [|lia].
    assert (INR k <= 38) as Hk38.
    { apply le_INR in Hfree. replace (INR 38) with 38 in Hfree by (cbn [INR]; lra).
      exact Hfree. }
    destruct (stepBall_by_lane b (launched (20 + INR k / 4) (20 + INR k / 4)) _ _ Hp)
      as [Hstep Hquiet].
    { apply quiet_outOfReach with (nx := 20 + INR k / 4 + 1 / 4)
                                  (ny := 20 + INR k / 4 + 1 / 4);
        [reflexivity | reflexivity | apply corridor_free; lra]. }
    eexists. split; [exact Hstep|]. split; [|exact Hquiet].
    unfold launched. rewrite commit_finite.
    exists (20 + INR k / 4 + 1 / 4). rewrite HS. split.
    + replace (20 + (INR k + 1) / 4) with (20 + INR k / 4 + 1 / 4) by lra.
      apply placed_mk; lra.
    + left. split; [lia | lra].
  - (* on top of the wall *)
    assert (38 < INR k) as Hk38.
    { apply lt_INR in Hslide. replace (INR 38) with 38 in Hslide by (cbn [INR]; lra).
      exact Hslide. }
    assert (39 <= INR k) as Hk39.
    { assert (39 <= k)%nat as H39 by lia. apply le_INR in H39.
      replace (INR 39) with 39 in H39 by (cbn [INR]; lra). exact H39. }
    assert (INR k <= 78) as Hk78.
    { assert (k <= 78)%nat as H78 by lia. apply le_INR in H78.
      replace (INR 78) with 78 in H78 by (cbn [INR]; lra). exact H78. }
    assert (119 / 4 <= y < 30) as Hyb.
    { destruct Hy as [[Hle ->]|[_ Hb]]; [|exact Hb].
      apply le_INR in Hle. replace (INR 39) with 39 in Hle by (cbn [INR]; lra).
      lra. }
    destruct (stepBall_by_lane b _ _ _ Hp (slide_lane (20 + INR k / 4) y ltac:(lra) Hyb))
      as [Hstep Hquiet].
    eexists. split; [exact Hstep|]. split; [|exact Hquiet].
    rewrite commit_finite.
    exists (30 + - (1 / 24)). rewrite HS. split.
    + replace (20 + (INR k + 1) / 4) with (20 + INR k / 4 + 1 / 4) by lra.
      apply placed_mk; lra.
    + right. split; [lia | lra].
Qed.

Lemma lane1_step (k : nat) (b : Ball.t) :
  lane1 k b -> (k <= 79)%nat ->
  exists b', stepBall pull b = b' /\ lane1 (S k) b'
             /\ anyDeflection walls (setNext (updateVelocity pull b)) = false.
Proof.
  intros (x & Hp & Hx) Hk. pose proof (INR_le_79 k Hk) as Hr.
  assert (INR (S k) = INR k + 1) as HS by apply S_INR.
  destruct (Rlt_dec (x + 1 / 4) 390) as [Hfree|Hhit].
  - destruct (stepBall_by_lane b _ _ _ Hp
                (right_lane_free x (20 + INR k / 4) ltac:(lra) Hfree ltac:(lra)))
      as [Hstep Hquiet].
    eexists. split; [exact Hstep|]. split; [|exact Hquiet].
    unfold launched. rewrite commit_finite. exists (x + 1 / 4). rewrite HS.
    replace (20 + (INR k + 1) / 4) with (20 + INR k / 4 + 1 / 4) by lra.
    split; [apply placed_mk; lra | lra].
  - destruct (stepBall_by_lane b _ _ _ Hp
                (right_lane_hit x (20 + INR k / 4) ltac:(lra) ltac:(lra) ltac:(lra)))
      as [Hstep Hquiet].
    eexists. split; [exact Hstep|]. split; [|exact Hquiet].
    rewrite commit_finite. exists (390 + - (1 / 24)). rewrite HS.
    replace (20 + (INR k + 1) / 4) with (20 + INR k / 4 + 1 / 4) by lra.
    split; [apply placed_mk; lra | lra].
Qed.

Lemma lane2_step (k : nat) (b : Ball.t) :
  lane2 k b -> (k <= 79)%nat ->
  exists b', stepBall pull b = b' /\ lane2 (S k) b'
             /\ anyDeflection walls (setNext (updateVelocity pull b)) = false.
Proof.
  intros (y & Hp & Hy) Hk. pose proof (INR_le_79 k Hk) as Hr.
  assert (INR (S k) = INR k + 1) as HS by apply S_INR.
  destruct (Rlt_dec (y + 1 / 4) 390) as [Hfree|Hhit].
  - destruct (stepBall_by_lane b _ _ _ Hp
                (bottom_lane_free (20 + INR k / 4) y ltac:(lra) ltac:(lra) Hfree))
      as [Hstep Hquiet].
    eexists. split; [exact Hstep|]. split; [|exact Hquiet].
    unfold launched. rewrite commit_finite. exists (y + 1 / 4). rewrite HS.
    replace (20 + (INR k + 1) / 4) with (20 + INR k / 4 + 1 / 4) by lra.
    split; [apply placed_mk; lra | lra].
  - destruct (stepBall_by_lane b _ _ _ Hp
                (bottom_lane_hit (20 + INR k / 4) y ltac:(lra) ltac:(lra) ltac:(lra)))
      as [Hstep Hquiet].
    eexists. split; [exact Hstep|]. split; [|exact Hquiet].
    rewrite commit_finite. exists (390 + - (1 / 24)). rewrite HS.
    replace (20 + (INR k + 1) / 4) with (20 + INR k / 4 + 1 / 4) by lra.
    split; [apply placed_mk; lra | lra].
Qed.

Lemma lane3_step (k : nat) (b : Ball.t) :
  lane3 k b ->
  exists b', stepBall pull b = b' /\ lane3 (S k) b'
             /\ anyDeflection walls (setNext (updateVelocity pull b)) = false.
Proof.
  intros (x & y & Hp & Hx & Hy).
  destruct (Rlt_dec (x + 1 / 4) 390) as [Hfx|Hhx];
    destruct (Rlt_dec (y + 1 / 4) 390) as [Hfy|Hhy].
  - destruct (stepBall_by_lane b _ _ _ Hp
                (corner_lane_free x y ltac:(lra) Hfx ltac:(lra) Hfy))
      as [Hstep Hquiet].
    eexists. split; [exact Hstep|]. split; [|exact Hquiet].
    unfold launched. rewrite commit_finite. exists (x + 1 / 4), (y + 1 / 4).
    split; [apply placed_mk; lra | lra].
  - destruct (stepBall_by_lane b _ _ _ Hp
                (corner_lane_bottom x y ltac:(lra) Hfx ltac:(lra) ltac:(lra)))
      as [Hstep Hquiet].
    eexists. split; [exact Hstep|]. split; [|exact Hquiet].
    rewrite commit_finite. exists (x + 1 / 4), (390 + - (1 / 24)).
    split; [apply placed_mk; lra | lra].
  - destruct (stepBall_by_lane b _ _ _ Hp
                (corner_lane_right x y ltac:(lra) ltac:(lra) ltac:(lra) Hfy))
      as [Hstep Hquiet].
    eexists. split; [exact Hstep|]. split; [|exact Hquiet].
    rewrite commit_finite. exists (390 + - (1 / 24)), (y + 1 / 4).
    split; [apply placed_mk; lra | lra].
  - destruct (stepBall_by_lane b _ _ _ Hp
                (corner_lane_both x y ltac:(lra) ltac:(lra) ltac:(lra) ltac:(lra)))
      as [Hstep Hquiet].
    eexists. split; [exact Hstep|]. split; [|exact Hquiet].
    rewrite commit_finite. exists (390 + - (1 / 24)), (390 + - (1 / 24)).
    split; [apply placed_mk; lra | lra].
Qed.

Lemma frame_gap (k : nat) : (256 * INR (S k) - 256 * INR k) / 16 = 16.
Proof. rewrite S_INR. field. Qed.

Lemma physics_rolling (s : State) (k : nat) :
  accelerationX s = Some (Num (0.1 * (1 / 2))) ->
  accelerationY s = Some (Num (0.1 * (1 / 2))) ->
  frictionX s = Some (Num (0.1 * slope * 0.001)) ->
  frictionY s = Some (Num (0.1 * slope * 0.001)) ->
  physics s (Num (256 * INR k)) (Num (256 * INR (S k)))
  = map (stepBall pull) (balls s).
Proof.
  intros Hax Hay Hfx Hfy. unfold physics. rewrite Hax, Hay, Hfx, Hfy.
  num_eval.
  change (256 * INR (S k) + - (256 * INR k)) with (256 * INR (S k) - 256 * INR k).
  rewrite frame_gap. apply forEach_map.
Qed.

Lemma deflectedInTick_rolling (s : State) (k : nat) (b : Ball.t) :
  accelerationX s = Some (Num (0.1 * (1 / 2))) ->
  accelerationY s = Some (Num (0.1 * (1 / 2))) ->
  frictionX s = Some (Num (0.1 * slope * 0.001)) ->
  frictionY s = Some (Num (0.1 * slope * 0.001)) ->
  deflectedInTick s (Num (256 * INR k)) (Num (256 * INR (S k))) b
  = anyDeflection walls (setNext (updateVelocity pull b)).
Proof.
  intros Hax Hay Hfx Hfy. unfold deflectedInTick. rewrite Hax, Hay, Hfx, Hfy.
  num_eval.
  change (256 * INR (S k) + - (256 * INR k)) with (256 * INR (S k) - 256 * INR k).
  rewrite frame_gap. reflexivity.
Qed.

Lemma lane0_far (k : nat) (b : Ball.t) : lane0 k b -> (k <= 80)%nat -> inGoal b = false.
Proof.
  intros (y & (vx & vy & Hx & Hy & _) & _) Hk.
  apply (inGoal_far b _ _ Hx Hy).
  apply le_INR in Hk. replace (INR 80) with 80 in Hk by (cbn [INR]; lra). lra.
Qed.

Lemma rolling_step (s : State) (k : nat) :
  rolling s k -> (k < 79)%nat ->
  rolling (main (Num (256 * INR (S k))) s) (S k).
Proof.
  intros (Hg & Hp & Hax & Hay & Hfx & Hfy
          & b0 & b1 & b2 & b3 & Hb & L0 & L1 & L2 & L3) Hk.
  destruct (lane0_step k b0 L0 Hk) as (b0' & E0 & L0' & _).
  destruct (lane1_step k b1 L1 ltac:(lia)) as (b1' & E1 & L1' & _).
  destruct (lane2_step k b2 L2 ltac:(lia)) as (b2' & E2 & L2' & _).
  destruct (lane3_step k b3 L3) as (b3' & E3 & L3' & _).
  pose proof (physics_rolling s k Hax Hay Hfx Hfy) as Hphys.
  rewrite Hb in Hphys. cbn [map] in Hphys. rewrite E0, E1, E2, E3 in Hphys.
  unfold main. rewrite Hg, Hp. cbn [negb]. rewrite Hphys.
  cbn [forallb]. rewrite (lane0_far (S k) b0' L0' ltac:(lia)). cbn [andb].
  unfold rolling.
  cbn [gameInProgress previousTimestamp accelerationX accelerationY
       frictionX frictionY balls].
  repeat split; try assumption.
  exists b0', b1', b2', b3'. repeat split; assumption.
Qed.

Lemma run_cons (e : Event) (es : list Event) (s : State) :
  run (e :: es) s = run es (handle s e).
Proof. reflexivity. Qed.

Lemma run_app (es1 es2 : list Event) (s : State) :
  run (es1 ++ es2) s = run es2 (run es1 s).
Proof. apply fold_left_app. Qed.

Lemma rolling_on (n : nat) :
  forall (s : State) (k : nat),
    rolling s k -> (k + n <= 79)%nat ->
    rolling (run (frames (S k) n) s) (k + n).
Proof.
  induction n as [|n IH]; intros s k Hr Hk.
  - rewrite Nat.add_0_r. exact Hr.
  - change (frames (S k) (S n))
      with (Tick (Num (256 * INR (S k))) :: frames (S (S k)) n).
    rewrite run_cons. cbn [handle].
    replace (k + S n)%nat with (S k + n)%nat by lia.
    apply IH; [|lia]. apply rolling_step; [exact Hr | lia].
Qed.

Lemma setting_off (s0 : State) :
  rolling (run ([Reset; tiltRightDown; Start] ++ frames 0 1) s0) 0.
Proof.
  cbn [app frames seq map run fold_left handle tiltRightDown].
  unfold resetGame, handleDeviceOrientation, startGame.
  cbn [gameInProgress previousTimestamp accelerationX accelerationY
       frictionX frictionY balls negb].
  unfold main.
  cbn [gameInProgress previousTimestamp accelerationX accelerationY
       frictionX frictionY balls negb].
  unfold rolling.
  cbn [gameInProgress previousTimestamp accelerationX accelerationY
       frictionX frictionY balls].
  num_eval. rewrite sin_thirty_degrees. fold slope.
  repeat split.
  eexists _, _, _, _. split; [reflexivity|].
  rewrite !startCell_pixels. unfold lane0, lane1, lane2, lane3. cbn [INR].
  split; [|split; [|split]].
  - exists (0 * 40 + 20). split.
    + replace (20 + 0 / 4) with (0 * 40 + 20) by lra. apply placed_mk; lra.
    + left. split; [lia | lra].
  - exists (9 * 40 + 20). split; [|lra].
    replace (20 + 0 / 4) with (0 * 40 + 20) by lra. apply placed_mk; lra.
  - exists (9 * 40 + 20). split; [|lra].
    replace (20 + 0 / 4) with (0 * 40 + 20) by lra. apply placed_mk; lra.
  - exists (9 * 40 + 20), (9 * 40 + 20). split; [apply placed_mk; lra | lra].
Qed.

Lemma approach_arrives (s0 : State) : rolling (run approach s0) 79.
Proof.
  unfold approach.
  change (frames 0 80) with (frames 0 1 ++ frames 1 79).
  rewrite app_assoc, run_app.
  apply (rolling_on 79 _ 0); [apply setting_off | lia].
Qed.

Lemma jointGame_last (s0 : State) :
  run jointGame s0 = main lastFrame (run approach s0).
Proof. unfold jointGame. rewrite run_app. reflexivity. Qed.

Lemma last_tick (s : State) :
  rolling s 79 ->
  previousTimestamp s = Some (Num (256 * INR 79))
  /\ Forall (fun ball => deflectedInTick s (Num (256 * INR 79)) lastFrame ball = false)
            (balls s)
  /\ gameInProgress (main lastFrame s) = true
  /\ exists b : Ball.t,
       balls (main lastFrame s) !! 0%nat = Some b
       /\ Ball.x b = Num 40 /\ Ball.y b = Num (30 + 1 / 144)
       /\ Ball.velocityY b = Num (1 / 144).
Proof.
  intros (Hg & Hp & Hax & Hay & Hfx & Hfy
          & b0 & b1 & b2 & b3 & Hb & L0 & L1 & L2 & L3).
  split; [exact Hp|].
  destruct L0 as (y & P0 & [[Hle _]|[_ Hy]]); [lia|].
  replace (INR 79) with 79 in P0 by (cbn [INR]; lra).
  replace (20 + 79 / 4) with (159 / 4) in P0 by lra.
  destruct (stepBall_by_lane b0 _ _ _ P0 (joint_lane y Hy)) as [E0 Q0].
  destruct (lane1_step 79 b1 L1 ltac:(lia)) as (b1' & E1 & _ & Q1).
  destruct (lane2_step 79 b2 L2 ltac:(lia)) as (b2' & E2 & _ & Q2).
  destruct (lane3_step 79 b3 L3) as (b3' & E3 & _ & Q3).
  split.
  { rewrite Hb. unfold lastFrame.
    repeat constructor; rewrite deflectedInTick_rolling; assumption. }
  pose proof (physics_rolling s 79 Hax Hay Hfx Hfy) as Hphys.
  rewrite Hb in Hphys. cbn [map] in Hphys. rewrite E0, E1, E2, E3 in Hphys.
  rewrite commit_finite in Hphys.
  unfold main, lastFrame. rewrite Hg, Hp. cbn [negb]. rewrite Hphys.
  cbn [forallb].
  erewrite inGoal_far; [|reflexivity|reflexivity|lra].
  cbn [andb gameInProgress balls]. split; [reflexivity|].
  eexists. split; [reflexivity|]. cbn [Ball.x Ball.y Ball.velocityY].
  repeat split. f_equal. lra.
Qed.

Lemma centerlineDistance_at_joint (vx vy : number) (nx ny : option number) :
  centerlineDistance
    (Wall.mk (Num (0 * (30 + 10))) (Num (1 * (30 + 10))) true (Num (1 * (30 + 10))))
    (Ball.point (Ball.mk (Num 40) (Num (30 + 1 / 144)) vx vy nx ny))
  = Num (10 - 1 / 144).
Proof.
  unfold centerlineDistance, distance2D, Ball.point.
  cbn [Wall.horizontal Wall.x Wall.y Wall.length Point.x Point.y Ball.x Ball.y].
  num_eval. f_equal.
  rewrite <- (sqrt_square (10 - 1 / 144)) by lra. f_equal. lra.
Qed.

(** C1. In the game [jointGame], played from any state, the last tick
    deflects no ball around a cap, and yet it leaves the first ball at
    (40, 30 + 1/144): its distance to the centerline of the wall from
    (0, 40) to (40, 40) is 10 - 1/144, less than
    wallWidth/2 + ballSize/2 = 10. *)
Theorem joint_breaks_separation (s0 : State) :
  let before := run approach s0 in
  let after := run jointGame s0 in
  after = main lastFrame before
  /\ gameInProgress after = true
  /\ (exists prev : number,
        previousTimestamp before = Some prev
        /\ Forall (fun ball => deflectedInTick before prev lastFrame ball = false)
                  (balls before))
  /\ exists (b : Ball.t) (wall : Wall.t),
       balls after !! 0%nat = Some b
       /\ Ball.x b = Num 40 /\ Ball.y b = Num (30 + 1 / 144)
       /\ walls !! 4%nat = Some wall
       /\ wall = Wall.mk (Num (0 * (30 + 10))) (Num (1 * (30 + 10))) true
                         (Num (1 * (30 + 10)))
       /\ centerlineDistance wall (Ball.point b) = Num (10 - 1 / 144)
       /\ separated wall b = false.
Proof.
  intros before after.
  assert (after = main lastFrame before) as Hafter by apply jointGame_last.
  split; [exact Hafter|]. rewrite Hafter.
  destruct (last_tick before (approach_arrives s0))
    as (Hprev & Hquiet & Hg & b & Hb & Hx & Hy & _).
  split; [exact Hg|].
  split; [eexists; split; [exact Hprev | exact Hquiet]|].
  exists b, (toWall (H 0 1)).
  split; [exact Hb|]. split; [exact Hx|]. split; [exact Hy|].
  split; [reflexivity|]. split; [reflexivity|].
  change (toWall (H 0 1))
    with (Wall.mk (Num (0 * (30 + 10))) (Num (1 * (30 + 10))) true
                  (Num (1 * (30 + 10)))).
  destruct b as [bx by_ bvx bvy bnx bny]. cbn [Ball.x Ball.y] in Hx, Hy. subst bx by_.
  split; [apply centerlineDistance_at_joint|].
  unfold separated. rewrite centerlineDistance_at_joint.
  unfold wallWidth, ballSize. now num_eval.
Qed.

(** ** A ball that runs into the body of a vertical wall *)

(** C5, amended.  A ball with velocity (0.3, 0) whose next position lies
    within the two radii on the left of a vertical wall, between its ends:
    the body test puts it at wall.x - wallWidth/2 - ballSize/2 with
    velocityX = -0.3/6 = -0.05, and the position commit that ends the tick
    then adds that velocity, which leaves it 0.05 further to the left. *)
Theorem body_hit_from_left_then_commit (wx wy wl x y : R) :
  let wall := Wall.mk (Num wx) (Num wy) false (Num wl) in
  let ball := Ball.mk (Num x) (Num y) (Num 0.3) (Num 0)
                      (Some (Num (x + 0.3))) (Some (Num (y + 0))) in
  wx - 10 <= x + 0.3 < wx ->
  wy <= y <= wy + wl ->
  Ball.x (collide wall ball) = Num (wx - 10)
  /\ Ball.velocityX (collide wall ball) = Num (- 0.05)
  /\ capDeflection wall ball = false
  /\ Ball.x (commit (collide wall ball)) = Num (wx - 10 - 0.05)
  /\ Ball.velocityX (commit (collide wall ball)) = Num (- 0.05).
Proof.
  intros wall ball Hx Hy.
  destruct (collide_body_from_left wx wy wl ball (x + 0.3) (y + 0)
              eq_refl eq_refl Hx ltac:(lra)) as [Hc Hd].
  subst wall ball. rewrite Hc, Hd. unfold commit, Ball.set_x, Ball.set_y.
  cbn [Ball.x Ball.y Ball.velocityX Ball.velocityY].
  num_eval. repeat split; try assumption; try reflexivity; f_equal; lra.
Qed.

Lemma body_hit_from_left_then_commit_witness :
  200 - 10 <= 189.8 + 0.3 < 200
  /\ Ball.x (commit
               (collide (Wall.mk (Num 200) (Num 0) false (Num 40))
                  (Ball.mk (Num 189.8) (Num 20) (Num 0.3) (Num 0)
                           (Some (Num (189.8 + 0.3))) (Some (Num (20 + 0))))))
     = Num (200 - 10 - 0.05).
Proof.
  split; [lra|].
  apply (body_hit_from_left_then_commit 200 0 40 189.8 20); lra.
Defined.

Ltac pass_miss :=
  rewrite collideAll_cons;
  erewrite (fun w b nx ny H1 H2 H3 => proj1 (collide_outOfReach w b nx ny H1 H2 H3));
  [ | reflexivity | reflexivity | apply toWall_outOfReach; [lra | cbv iota; lra] ].

Lemma stepBall_towardsWall :
  stepBall level towardsWall
  = Ball.mk (Num 189.95) (Num 20) (Num (- 0.05)) (Num 0)
            (Some (Num 190)) (Some (Num 20)).
Proof.
  unfold stepBall.
  rewrite (setNext_updateVelocity level towardsWall 189.8 20 0.3 0);
    try reflexivity.
  2:{ cbn [level velocityChangeX frictionDeltaX towardsWall Ball.velocityX].
      rewrite updateVelocityX_flat. unfold slow.
      repeat (progress (num_eval; cmp_cases)).
      all: try (exfalso; unfold Rabs in *; destruct (Rcase_abs 0.3); lra).
      f_equal; lra. }
  2:{ cbn [level velocityChangeY frictionDeltaY towardsWall Ball.velocityY].
      rewrite updateVelocityY_flat. apply slow_small. rewrite Rabs_R0. lra. }
  unfold walls, wallTable, H, V. cbn [map].
  do 33 pass_miss.
  rewrite collideAll_cons, (toWall_pixels 5 0 1 false).
  erewrite (fun wx wy wl b nx ny H1 H2 H3 H4 =>
              proj1 (collide_body_from_left wx wy wl b nx ny H1 H2 H3 H4));
    [ | reflexivity | reflexivity | lra | lra ].
  cbn [Ball.x Ball.y Ball.velocityX Ball.velocityY Ball.nextX Ball.nextY].
  repeat pass_miss.
  unfold collideAll, fold_left, commit, Ball.set_x, Ball.set_y.
  cbn [Ball.x Ball.y Ball.velocityX Ball.velocityY Ball.nextX Ball.nextY].
  num_eval. repeat (f_equal; try lra).
Qed.

(** C5, as stated, fails in the maze: a ball at (189.8, 20) with velocity
    (0.3, 0) meets the wall that hangs from the top border at x = 200; the
    tick, with the maze level and no time elapsed, leaves it at x = 189.95
    and not at 200 - 5 - 5 = 190. *)
Lemma towardsWall_overshoots :
  walls !! 33%nat = Some (Wall.mk (Num (5 * (30 + 10))) (Num (0 * (30 + 10)))
                                  false (Num (1 * (30 + 10))))
  /\ Ball.nextX (setNext (updateVelocity level towardsWall)) = Some (Num (189.8 + 0.3))
  /\ Ball.x (stepBall level towardsWall) = Num 189.95
  /\ Ball.x (stepBall level towardsWall) <> (Num 200 - wallWidth / Num 2 - ballSize / Num 2)%js.
Proof.
  rewrite stepBall_towardsWall. cbn [Ball.x].
  split; [reflexivity|]. split.
  { unfold setNext, updateVelocity, Ball.set_nextX, Ball.set_nextY,
      Ball.set_velocityX, Ball.set_velocityY, level, towardsWall.
    cbn [Ball.x Ball.y Ball.velocityX Ball.velocityY Ball.nextX
         velocityChangeX frictionDeltaX].
    rewrite updateVelocityX_flat. unfold slow.
    repeat (progress (num_eval; cmp_cases)).
    all: try (exfalso; unfold Rabs in *; destruct (Rcase_abs 0.3); lra).
    f_equal. f_equal. lra. }
  split; [reflexivity|].
  unfold wallWidth, ballSize. num_eval. intros E. injection E as E. lra.
Qed.

(** ** The velocity bound *)

Ltac abs_le :=
  unfold Rabs; repeat (match goal with |- context [Rcase_abs ?a] => destruct (Rcase_abs a) end);
  lra.

Lemma slow_bound (fd v : R) :
  exists u : R, slow (Num v) (Num fd) = Num u /\ (0 <= fd -> Rabs u <= Rabs v).
Proof.
  unfold slow. num_cbn.
  destruct (Rle_dec (Rabs v) fd) as [H1|H1];
    [rewrite Rleb_true by exact H1 | rewrite Rleb_false by lra].
  - exists 0. split; [reflexivity|]. intros _. rewrite Rabs_R0. apply Rabs_pos.
  - destruct (Rlt_dec fd v) as [H2|H2];
      [rewrite Rltb_true by exact H2 | rewrite Rltb_false by lra].
    + eexists. split; [reflexivity|]. intros Hfd. revert H1. abs_le.
    + eexists. split; [reflexivity|]. intros Hfd. revert H1. abs_le.
Qed.

Lemma Math_minmax_bound (a : R) :
  exists u : R, Math_minmax (Num a) maxVelocity = Num u /\ Rabs u <= 1 / 4.
Proof.
  unfold maxVelocity. repeat (progress (num_eval; cmp_cases));
    eexists; (split; [reflexivity|]); apply Rabs_le; lra.
Qed.

Lemma updateVelocityX_bound (dv fd v : R) :
  exists u : R,
    updateVelocityX (Num dv) (Num fd) (Num v) = Num u
    /\ (dv <> 0 -> Rabs u <= 1 / 4)
    /\ (dv = 0 -> 0 <= fd -> Rabs u <= Rabs v).
Proof.
  destruct (Req_dec dv 0) as [E|E].
  - subst dv. rewrite updateVelocityX_flat.
    destruct (slow_bound fd v) as (u & Hu & Hb).
    exists u. repeat split; [exact Hu | intros H; now contradiction H | intros _; exact Hb].
  - unfold updateVelocityX. cbn [num_eq]. rewrite Reqb_false by exact E. cbv zeta.
    assert (exists a, (Math_max (Math_min (Num v + Num dv) (Num 1.5)) (Num (-1.5))
                       - Math_sign (Num dv) * Num fd)%js = Num a) as [a ->].
    { repeat (progress (num_eval; unfold Rsign; cmp_cases)); now eexists. }
    destruct (Math_minmax_bound a) as (u & Hu & Hb).
    exists u. repeat split; [exact Hu | intros _; exact Hb | intros H; now contradiction E].
Qed.

Lemma updateVelocityY_bound (dv fd v : R) :
  exists u : R,
    updateVelocityY (Num dv) (Num fd) (Num v) = Num u
    /\ (dv <> 0 -> Rabs u <= 1 / 4)
    /\ (dv = 0 -> 0 <= fd -> Rabs u <= Rabs v).
Proof.
  destruct (Req_dec dv 0) as [E|E].
  - subst dv. rewrite updateVelocityY_flat.
    destruct (slow_bound fd v) as (u & Hu & Hb).
    exists u. repeat split; [exact Hu | intros H; now contradiction H | intros _; exact Hb].
  - unfold updateVelocityY. cbn [num_eq]. rewrite Reqb_false by exact E. cbv zeta.
    assert (exists a, (Num v + Num dv - Math_sign (Num dv) * Num fd)%js = Num a) as [a ->].
    { repeat (progress (num_eval; unfold Rsign; cmp_cases)); now eexists. }
    destruct (Math_minmax_bound a) as (u & Hu & Hb).
    exists u. repeat split; [exact Hu | intros _; exact Hb | intros H; now contradiction E].
Qed.

Lemma slowerThan_refl (ux uy : R) (b : Ball.t) :
  Ball.velocityX b = Num ux -> Ball.velocityY b = Num uy -> slowerThan ux uy b.
Proof. intros Hx Hy. split; eexists; (split; [eassumption | lra]). Qed.

Lemma hitHorizontalBody_slower (w : Wall.t) (b : Ball.t) (ux uy : R) :
  slowerThan ux uy b -> slowerThan ux uy (hitHorizontalBody w b).
Proof.
  intros [Hx (u & Hu & Hb)]. split; [exact Hx|].
  unfold hitHorizontalBody, Ball.set_velocityY, Ball.set_y, Ball.set_nextY.
  cbn [Ball.velocityY]. rewrite Hu. num_eval.
  eexists. split; [reflexivity|]. revert Hb. abs_le.
Qed.

Lemma hitVerticalBody_slower (w : Wall.t) (b : Ball.t) (ux uy : R) :
  slowerThan ux uy b -> slowerThan ux uy (hitVerticalBody w b).
Proof.
  intros [(u & Hu & Hb) Hy]. split; [|exact Hy].
  unfold hitVerticalBody, Ball.set_velocityX, Ball.set_x, Ball.set_nextX.
  cbn [Ball.velocityX]. rewrite Hu. num_eval.
  eexists. split; [reflexivity|]. revert Hb. abs_le.
Qed.

Lemma collide_slower (w : Wall.t) (b : Ball.t) (ux uy : R) :
  capDeflection w b = false ->
  slowerThan ux uy b -> slowerThan ux uy (collide w b).
Proof.
  intros Hd Hs. unfold collide, capDeflection, resolveCap in *. cbv zeta in *.
  cbn [Point.x Point.y] in *.
  destruct (Wall.horizontal w).
  - match type of Hd with (?s && _ = false) => destruct s end; [|exact Hs].
    cbn [andb] in Hd.
    destruct (mightHitStartCap nextXOf (Wall.x w) b);
      destruct (hitsCap (Point.mk (Wall.x w) (Wall.y w)) b);
      cbn [andb orb] in Hd; try discriminate Hd;
      destruct (mightHitEndCap nextXOf (Wall.x w + Wall.length w)%js b);
      destruct (hitsCap (Point.mk (Wall.x w + Wall.length w)%js (Wall.y w)) b);
      cbn [andb orb] in Hd; try discriminate Hd;
      destruct (_ && _); try exact Hs; now apply hitHorizontalBody_slower.
  - match type of Hd with (?s && _ = false) => destruct s end; [|exact Hs].
    cbn [andb] in Hd.
    destruct (mightHitStartCap nextYOf (Wall.y w) b);
      destruct (hitsCap (Point.mk (Wall.x w) (Wall.y w)) b);
      cbn [andb orb] in Hd; try discriminate Hd;
      destruct (mightHitEndCap nextYOf (Wall.y w + Wall.length w)%js b);
      destruct (hitsCap (Point.mk (Wall.x w) (Wall.y w + Wall.length w)%js) b);
      cbn [andb orb] in Hd; try discriminate Hd;
      destruct (_ && _); try exact Hs; now apply hitVerticalBody_slower.
Qed.

Lemma collideAll_slower (ws : list Wall.t) (ux uy : R) :
  forall b : Ball.t,
    anyDeflection ws b = false ->
    slowerThan ux uy b -> slowerThan ux uy (collideAll ws b).
Proof.
  induction ws as [|w ws IH]; intros b Hd Hs; [exact Hs|].
  cbn [anyDeflection] in Hd. apply orb_false_iff in Hd as [Hd1 Hd2].
  rewrite collideAll_cons. apply IH; [exact Hd2|]. now apply collide_slower.
Qed.

(** ** A ball that grazes a free wall end

    The wall from (40, 80) to (80, 80) ends free at (80, 80).  A ball above
    and to the right of that end, moving down and to the right at
    maxVelocity on both axes, is deflected around the cap. *)

Lemma sqrt_sq (a s : R) : 0 <= a -> s = a * a -> sqrt s = a.
Proof. intros Ha ->. now apply sqrt_square. Qed.

Lemma quotient_eq (a b c : R) : b <> 0 -> a = c * b -> a / b = c.
Proof. intros Hb ->. field. exact Hb. Qed.

Ltac atan_quotient c :=
  match goal with
  | |- context [atan (?a / ?b)] =>
      replace (a / b) with c by (symmetry; apply quotient_eq; lra)
  end.

Lemma cos_atan_steep : cos (atan (- (4 / 3))) = 3 / 5.
Proof.
  rewrite cos_atan. unfold Rsqr.
  rewrite (sqrt_sq (5 / 3)); lra.
Qed.

Lemma sin_atan_steep : sin (atan (- (4 / 3))) = - (4 / 5).
Proof.
  rewrite sin_atan. unfold Rsqr.
  rewrite (sqrt_sq (5 / 3)); lra.
Qed.

Lemma hitsCap_grazing : hitsCap freeEnd grazingNext = true.
Proof.
  unfold hitsCap, distance2D, freeEnd, grazingNext, launched, Ball.next, ballSize,
    wallWidth.
  cbn [Point.x Point.y Ball.nextX Ball.nextY]. num_eval.
  apply Rltb_true. rewrite (sqrt_sq 9.95); lra.
Qed.

Lemma closest_grazing :
  closestItCanBe freeEnd (Ball.next grazingNext) = Point.mk (Num 86) (Num 72).
Proof.
  unfold closestItCanBe, getAngle, freeEnd, grazingNext, launched, Ball.next,
    ballSize, wallWidth.
  cbn [Point.x Point.y Ball.nextX Ball.nextY]. num_eval.
  atan_quotient (- (4 / 3)).
  rewrite cos_atan_steep, sin_atan_steep. f_equal; f_equal; lra.
Qed.

Lemma impact_grazing :
  getAngle (Point.mk (Num 86) (Num 72)) freeEnd = Num (atan (- (4 / 3)) + PI).
Proof.
  unfold getAngle, freeEnd. cbn [Point.x Point.y]. num_eval.
  now atan_quotient (- (4 / 3)).
Qed.

Lemma heading_diagonal :
  getAngle (Point.mk (Num 0) (Num 0)) (Point.mk (Num (1 / 4)) (Num (1 / 4)))
  = Num (PI / 4).
Proof.
  unfold getAngle. cbn [Point.x Point.y]. num_eval.
  atan_quotient 1. now rewrite atan_1.
Qed.

Lemma sqrt2_sqr : sqrt 2 * sqrt 2 = 2.
Proof. apply sqrt_sqrt. lra. Qed.

Lemma sqrt2_pos : 0 < sqrt 2.
Proof. apply sqrt_lt_R0. lra. Qed.

Lemma magnitude_diagonal :
  distance2D (Point.mk (Num 0) (Num 0)) (Point.mk (Num (1 / 4)) (Num (1 / 4)))
  = Num (sqrt 2 / 4).
Proof.
  unfold distance2D. cbn [Point.x Point.y]. num_eval. f_equal.
  pose proof sqrt2_sqr. pose proof sqrt2_pos.
  apply sqrt_sq; [lra | nra].
Qed.

Lemma sin_impactHeading :
  sin (atan (- (4 / 3)) + PI + - (PI / 4)) * (sqrt 2 / 4) = 7 / 20.
Proof.
  replace (atan (- (4 / 3)) + PI + - (PI / 4))
    with (atan (- (4 / 3)) - PI / 4 + PI) by lra.
  rewrite neg_sin, sin_minus, cos_atan_steep, sin_atan_steep, cos_PI4, sin_PI4.
  pose proof sqrt2_sqr. pose proof sqrt2_pos.
  field_simplify; [|lra]. nra.
Qed.

Lemma stretch_bounds : 1 <= stretch <= 1.001.
Proof.
  unfold stretch, Rsqr. split.
  - rewrite <- sqrt_1 at 1. apply sqrt_le_1; lra.
  - rewrite <- (sqrt_square 1.001) by lra. apply sqrt_le_1; lra.
Qed.

Lemma deflected_bounds :
  0.28 <= deflectedVX < 0.29 /\ 0.2 < deflectedVY <= 0.21.
Proof.
  pose proof stretch_bounds as Hs. unfold deflectedVX, deflectedVY.
  assert (143 / 25 / stretch * stretch = 143 / 25) as H1 by (field; lra).
  assert (821 / 100 / stretch * stretch = 821 / 100) as H2 by (field; lra).
  assert (0 < 143 / 25 / stretch) as P1 by (apply Rdiv_lt_0_compat; lra).
  assert (0 < 821 / 100 / stretch) as P2 by (apply Rdiv_lt_0_compat; lra).
  set (q1 := 143 / 25 / stretch) in *. set (q2 := 821 / 100 / stretch) in *.
  repeat split; nra.
Qed.

Lemma roll_grazing :
  rollAroundCap freeEnd
    (Ball.mk (Num 86) (Num 72) (Num (1 / 4)) (Num (1 / 4)) None None)
  = Ball.mk (Num 86) (Num 72) (Num deflectedVX) (Num deflectedVY)
            (Some (Num (86 + deflectedVX))) (Some (Num (72 + deflectedVY))).
Proof.
  unfold rollAroundCap, Ball.point, Ball.velocity. cbv zeta.
  cbn [Ball.x Ball.y Ball.velocityX Ball.velocityY].
  rewrite impact_grazing, heading_diagonal, magnitude_diagonal.
  unfold ballSize, wallWidth, freeEnd. cbn [Point.x Point.y]. num_eval.
  rewrite sin_impactHeading.
  replace (7 / 20 / (10 / 2 + 10 / 2)) with (7 / 200)
    by (symmetry; apply quotient_eq; lra).
  replace (atan (- (4 / 3)) + PI + PI + - atan (7 / 200))
    with (atan (- (4 / 3)) - atan (7 / 200) + PI + PI) by lra.
  rewrite !neg_cos, !neg_sin, cos_minus, sin_minus.
  rewrite cos_atan_steep, sin_atan_steep, cos_atan, sin_atan.
  fold stretch. pose proof stretch_bounds as Hs.
  unfold deflectedVX, deflectedVY.
  f_equal; repeat first [apply (f_equal (@Some number)) | apply (f_equal Num)];
    field; lra.
Qed.

Lemma collide_end_cap (wx wy wl : R) (b r : Ball.t) (nx ny rnx : R) :
  Ball.nextX b = Some (Num nx) -> Ball.nextY b = Some (Num ny) ->
  wy - 10 <= ny <= wy + 10 -> wx + wl < nx <= wx + wl + 10 -> 0 <= wl ->
  resolveCap (Point.mk (Num (wx + wl)) (Num wy)) b = r ->
  Ball.nextX r = Some (Num rnx) -> wx + wl < rnx ->
  collide (Wall.mk (Num wx) (Num wy) true (Num wl)) b = r
  /\ capDeflection (Wall.mk (Num wx) (Num wy) true (Num wl)) b
     = hitsCap (Point.mk (Num (wx + wl)) (Num wy)) b.
Proof.
  intros Hnx Hny Hy Hx Hl Hr Hrnx Hfar.
  unfold collide, capDeflection, mightHitStartCap, mightHitEndCap, nextXOf, nextYOf,
    ballSize, wallWidth.
  cbn [Wall.x Wall.y Wall.length Wall.horizontal Point.x Point.y].
  rewrite Hnx, Hny. num_eval. cbn [andb orb].
  rewrite Hnx. num_eval. cbn [andb orb].
  rewrite Hr, Hrnx. num_eval. cbn [andb]. now split.
Qed.

Lemma resolveCap_grazing :
  resolveCap freeEnd grazingNext
  = Ball.mk (Num 86) (Num 72) (Num deflectedVX) (Num deflectedVY)
            (Some (Num (86 + deflectedVX))) (Some (Num (72 + deflectedVY))).
Proof.
  unfold resolveCap. rewrite hitsCap_grazing, closest_grazing.
  cbn [Point.x Point.y grazingNext launched Ball.velocityX Ball.velocityY].
  apply roll_grazing.
Qed.

Lemma freeEnd_wall :
  toWall (H 1 2) = Wall.mk (Num 40) (Num 80) true (Num 40).
Proof. unfold H. rewrite toWall_pixels. f_equal; f_equal; lra. Qed.

Lemma stepBall_grazing :
  stepBall pull grazing
  = Ball.mk (Num (86 + deflectedVX)) (Num (72 + deflectedVY))
            (Num deflectedVX) (Num deflectedVY)
            (Some (Num (86 + deflectedVX))) (Some (Num (72 + deflectedVY))).
Proof.
  unfold stepBall.
  rewrite (launch grazing 85.72 71.79) by (apply placed_mk; lra).
  unfold walls, wallTable. cbn [map].
  unfold launched. unfold H at 1 2 3 4. unfold V.
  do 8 pass_miss.
  fold (launched 85.72 71.79). fold grazingNext.
  rewrite collideAll_cons, freeEnd_wall.
  rewrite (proj1 (collide_end_cap 40 80 40 grazingNext _ (85.72 + 1 / 4) (71.79 + 1 / 4)
                    (86 + deflectedVX) eq_refl eq_refl ltac:(lra) ltac:(lra) ltac:(lra)
                    resolveCap_grazing eq_refl
                    ltac:(pose proof deflected_bounds; lra))).
  pose proof deflected_bounds as Hb. unfold H.
  generalize dependent deflectedVY. generalize dependent deflectedVX.
  intros U W Hb.
  repeat pass_miss.
  unfold collideAll, fold_left, commit, Ball.set_x, Ball.set_y.
  cbn [Ball.x Ball.y Ball.velocityX Ball.velocityY Ball.nextX Ball.nextY].
  num_eval. reflexivity.
Qed.

(** C4, as stated, fails: in a frame of the game above, tilted on both
    axes, the ball [grazing] is deflected around the cap at (80, 80), and
    the tick leaves it with velocityX = 6 - 5.72 / sqrt (1 + (7/200)^2),
    which is at least 0.28 and so above maxVelocity = 0.25. *)
Lemma deflection_exceeds_maxVelocity :
  (velocityChangeX pull ==? Num 0)%js = false
  /\ Ball.velocityX (stepBall pull grazing) = Num deflectedVX
  /\ 0.28 <= deflectedVX
  /\ (Math_abs (Ball.velocityX (stepBall pull grazing)) <=? maxVelocity)%js = false.
Proof.
  rewrite stepBall_grazing. cbn [Ball.velocityX].
  pose proof deflected_bounds as [[Hlo Hhi] _].
  split; [unfold pull; cbn [tiltOf velocityChangeX]; now num_eval|].
  split; [reflexivity|]. split; [exact Hlo|].
  unfold maxVelocity. num_cbn. apply Rleb_false.
  rewrite Rabs_right; lra.
Qed.

(** C4, amended.  In a tick that deflects the ball around no cap, the
    velocity the tick leaves on an axis has magnitude at most
    maxVelocity = 0.25 when the tilt on that axis is not zero, hits of wall
    bodies included; and when the tilt on that axis is zero and the friction
    delta is not negative, its magnitude is at most the magnitude before the
    tick.  (A deflection around a cap replaces the velocity by the offset
    that rollAroundCap computes.) *)
Theorem velocity_bounded_without_deflection
    (t : Tilt) (b : Ball.t) (dvx dvy fdx fdy vx vy : R) :
  velocityChangeX t = Num dvx -> velocityChangeY t = Num dvy ->
  frictionDeltaX t = Num fdx -> frictionDeltaY t = Num fdy ->
  Ball.velocityX b = Num vx -> Ball.velocityY b = Num vy ->
  anyDeflection walls (setNext (updateVelocity t b)) = false ->
  exists ux uy : R,
    Ball.velocityX (stepBall t b) = Num ux
    /\ Ball.velocityY (stepBall t b) = Num uy
    /\ (dvx <> 0 -> Rabs ux <= 0.25)
    /\ (dvy <> 0 -> Rabs uy <= 0.25)
    /\ (dvx = 0 -> 0 <= fdx -> Rabs ux <= Rabs vx)
    /\ (dvy = 0 -> 0 <= fdy -> Rabs uy <= Rabs vy).
Proof.
  intros Hdvx Hdvy Hfdx Hfdy Hvx Hvy Hquiet.
  destruct (updateVelocityX_bound dvx fdx vx) as (u1 & Hu1 & Hx1 & Hx2).
  destruct (updateVelocityY_bound dvy fdy vy) as (u2 & Hu2 & Hy1 & Hy2).
  assert (slowerThan u1 u2 (setNext (updateVelocity t b))) as Hs.
  { apply slowerThan_refl.
    - change (Ball.velocityX (setNext (updateVelocity t b)))
        with (Ball.velocityX (updateVelocity t b)).
      rewrite updateVelocity_velocityX, Hdvx, Hfdx, Hvx. exact Hu1.
    - change (Ball.velocityY (setNext (updateVelocity t b)))
        with (Ball.velocityY (updateVelocity t b)).
      rewrite updateVelocity_velocityY, Hdvy, Hfdy, Hvy. exact Hu2. }
  apply (collideAll_slower walls u1 u2 _ Hquiet) in Hs.
  destruct Hs as [(ux & Hux & Hbx) (uy & Huy & Hby)].
  exists ux, uy.
  split; [exact Hux|]. split; [exact Huy|].
  repeat split.
  - intros H. specialize (Hx1 H). lra.
  - intros H. specialize (Hy1 H). lra.
  - intros H Hf. specialize (Hx2 H Hf). lra.
  - intros H Hf. specialize (Hy2 H Hf). lra.
Qed.

Lemma velocity_bounded_without_deflection_witness :
  anyDeflection walls (setNext (updateVelocity pull (startCell 0 0))) = false
  /\ exists ux uy : R,
       Ball.velocityX (stepBall pull (startCell 0 0)) = Num ux
       /\ Ball.velocityY (stepBall pull (startCell 0 0)) = Num uy
       /\ Rabs ux <= 0.25 /\ Rabs uy <= 0.25.
Proof.
  assert (anyDeflection walls (setNext (updateVelocity pull (startCell 0 0))) = false)
    as Hquiet.
  { rewrite startCell_pixels.
    refine (proj2 (stepBall_by_lane _ (launched (0 * 40 + 20) (0 * 40 + 20))
                     (0 * 40 + 20) (0 * 40 + 20) _ _)).
    - apply placed_mk; lra.
    - apply quiet_outOfReach with (nx := 0 * 40 + 20 + 1 / 4) (ny := 0 * 40 + 20 + 1 / 4);
        [reflexivity | reflexivity | apply corridor_free; lra]. }
  split; [exact Hquiet|].
  destruct (velocity_bounded_without_deflection pull (startCell 0 0)
              (0.1 * (1 / 2) * 16) (0.1 * (1 / 2) * 16)
              (0.1 * slope * 0.001 * 16) (0.1 * slope * 0.001 * 16) 0 0
              eq_refl eq_refl eq_refl eq_refl eq_refl eq_refl
              Hquiet) as (ux & uy & Hux & Huy & Hx & Hy & _).
  exists ux, uy. split; [exact Hux|]. split; [exact Huy|].
  split; [apply Hx | apply Hy]; lra.
Defined.

(** ** The velocity update against its description *)

Lemma updateVelocityX_tilted (dv fd v : number) :
  (dv ==? Num 0)%js = false -> updateVelocityX dv fd v = clampedUpdate dv fd v.
Proof. intros H. unfold updateVelocityX. now rewrite H. Qed.

Lemma slope_above : 0.85 < slope.
Proof.
  unfold slope. replace (37.5 * 0.8 / 180 * PI) with (PI / 6) by lra.
  rewrite cos_PI6.
  assert (1.7 < sqrt 3) as H; [|lra].
  rewrite <- (sqrt_square 1.7) by lra. apply sqrt_lt_1; lra.
Qed.

(** C3. On the x axis a tilted tick applies the described chain.  On the y
    axis the hard clamp is missing: with a velocity of 0, a change of 3 and
    a friction delta of 2 the code yields 0.25, where the described chain
    yields -0.25; and with the tilt of the game above, when 256 s pass
    between two frames, the code yields 0.25 on the y axis, where the
    described chain (and the code on the x axis) yields less than 0.15. *)
Theorem updateVelocityY_skips_hard_clamp :
  updateVelocityY (Num 3) (Num 2) (Num 0) = Num 0.25
  /\ clampedUpdate (Num 3) (Num 2) (Num 0) = Num (- 0.25)
  /\ updateVelocityX (Num 3) (Num 2) (Num 0) = Num (- 0.25)
  /\ updateVelocityY (Num 3) (Num 2) (Num 0) <> clampedUpdate (Num 3) (Num 2) (Num 0)
  /\ updateVelocityY (velocityChangeY longPause) (frictionDeltaY longPause) (Num 0)
     = Num 0.25
  /\ exists u : R,
       clampedUpdate (velocityChangeY longPause) (frictionDeltaY longPause) (Num 0)
       = Num u
       /\ updateVelocityX (velocityChangeX longPause) (frictionDeltaX longPause) (Num 0)
          = Num u
       /\ u < 0.15.
Proof.
  assert (updateVelocityY (Num 3) (Num 2) (Num 0) = Num 0.25) as HY.
  { unfold updateVelocityY, maxVelocity. num_solve. }
  assert (clampedUpdate (Num 3) (Num 2) (Num 0) = Num (- 0.25)) as HC.
  { unfold clampedUpdate, maxVelocity. num_solve. }
  pose proof slope_bounds as Hs. pose proof slope_above as Hs'.
  split; [exact HY|]. split; [exact HC|].
  split; [rewrite updateVelocityX_tilted; [exact HC | num_solve]|].
  split; [rewrite HY, HC; intros E; injection E as E; lra|].
  cbn [longPause tiltOf velocityChangeX velocityChangeY frictionDeltaX frictionDeltaY].
  split.
  - apply updateVelocityY_saturates; nra.
  - exists (1.5 - 0.1 * slope * 0.001 * 16000).
    assert (clampedUpdate (Num (0.1 * (1 / 2) * 16000))
                          (Num (0.1 * slope * 0.001 * 16000)) (Num 0)
            = Num (1.5 - 0.1 * slope * 0.001 * 16000)) as HL.
    { unfold clampedUpdate, maxVelocity.
      repeat (progress (num_eval; cmp_cases));
        first [reflexivity | f_equal; lra | exfalso; lra]. }
    split; [exact HL|].
    split; [rewrite updateVelocityX_tilted; [exact HL | num_solve]|].
    lra.
Qed.

(** * Further properties of the code *)

(** ** [Math.minmax] *)

(** X1. [Math.minmax] with a limit that is not negative clamps a real value
    to [-limit, limit]: a value within the limits is returned as it is, a
    larger one gives the limit, a smaller one minus the limit.  With a
    negative limit the result is minus the limit whatever the value, which
    lies outside [limit, -limit] read as a range; and a [NaN] on either side
    gives [NaN]. *)
Theorem Math_minmax_clamps (value limit : R) :
  (0 <= limit ->
   exists r : R,
     Math_minmax (Num value) (Num limit) = Num r
     /\ - limit <= r <= limit
     /\ (Rabs value <= limit -> r = value)
     /\ (limit < value -> r = limit)
     /\ (value < - limit -> r = - limit))
  /\ (limit < 0 -> Math_minmax (Num value) (Num limit) = Num (- limit))
  /\ Math_minmax NaN (Num limit) = NaN
  /\ Math_minmax (Num value) NaN = NaN.
Proof.
  split; [|split; [|split; reflexivity]].
  - intros Hl. unfold Math_minmax. num_cbn.
    destruct (Rlt_dec limit value) as [Hhi|Hhi].
    + rewrite Rltb_true by exact Hhi. num_cbn. rewrite Rltb_false by lra.
      exists limit. repeat split; try lra.
      intros Ha. unfold Rabs in Ha. destruct (Rcase_abs value); lra.
    + rewrite Rltb_false by lra. num_cbn.
      destruct (Rlt_dec value (- limit)) as [Hlo|Hlo].
      * rewrite Rltb_true by exact Hlo. exists (- limit). repeat split; try lra.
        intros Ha. unfold Rabs in Ha. destruct (Rcase_abs value); lra.
      * rewrite Rltb_false by lra. exists value. repeat split; lra.
  - intros Hl. unfold Math_minmax. num_cbn.
    destruct (Rlt_dec limit value) as [Hhi|Hhi].
    + rewrite Rltb_true by exact Hhi. num_cbn. now rewrite Rltb_true by lra.
    + rewrite Rltb_false by lra. num_cbn. now rewrite Rltb_true by lra.
Qed.

Lemma Math_minmax_clamps_witness :
  Math_minmax (Num 0.4) (Num 0.25) = Num 0.25
  /\ Math_minmax (Num 0.4) (Num (-0.25)) = Num 0.25.
Proof.
  destruct (Math_minmax_clamps 0.4 0.25) as [H _].
  destruct (Math_minmax_clamps 0.4 (-0.25)) as (_ & H' & _).
  split.
  - destruct (H ltac:(lra)) as (r & Hr & _ & _ & Hhi & _).
    rewrite Hr. f_equal. apply Hhi. lra.
  - rewrite (H' ltac:(lra)). f_equal. lra.
Defined.

(** ** [distance2D] *)

Lemma num_sqr_sub_comm (a b : number) : num_sqr (a - b)%js = num_sqr (b - a)%js.
Proof.
  destruct a as [x| | |], b as [y| | |]; try reflexivity.
  unfold num_sqr, num_sub. cbn [num_neg num_add num_mul]. f_equal. ring.
Qed.

Lemma distance2D_real (x1 y1 x2 y2 : R) :
  distance2D (pt x1 y1) (pt x2 y2) = Num (sqrt ((x2 - x1)² + (y2 - y1)²)).
Proof.
  unfold distance2D, pt. cbn [Point.x Point.y]. num_cbn.
  rewrite Rltb_sum_squares. reflexivity.
Qed.

(** X2. [distance2D] does not depend on the order of its two points.  On
    points with real coordinates it is a real number that is not negative,
    it is zero exactly when the points coincide, and it obeys the triangle
    inequality. *)
Theorem distance2D_metric (x1 y1 x2 y2 x3 y3 : R) (p q : Point.t) :
  distance2D p q = distance2D q p
  /\ exists d12 d23 d13 : R,
       distance2D (pt x1 y1) (pt x2 y2) = Num d12
       /\ distance2D (pt x2 y2) (pt x3 y3) = Num d23
       /\ distance2D (pt x1 y1) (pt x3 y3) = Num d13
       /\ 0 <= d12
       /\ (d12 = 0 <-> x1 = x2 /\ y1 = y2)
       /\ d13 <= d12 + d23.
Proof.
  split.
  - unfold distance2D.
    now rewrite (num_sqr_sub_comm (Point.x q)), (num_sqr_sub_comm (Point.y q)).
  - rewrite !distance2D_real. do 3 eexists.
    split; [reflexivity|]. split; [reflexivity|]. split; [reflexivity|].
    split; [apply sqrt_pos|]. split.
    + split.
      * intros H0. apply sqrt_eq_0 in H0.
        -- pose proof (Rle_0_sqr (x2 - x1)). pose proof (Rle_0_sqr (y2 - y1)).
           assert ((x2 - x1)² = 0) as Hx by lra.
           assert ((y2 - y1)² = 0) as Hy by lra.
           apply Rsqr_0_uniq in Hx, Hy. lra.
        -- pose proof (Rle_0_sqr (x2 - x1)). pose proof (Rle_0_sqr (y2 - y1)). lra.
      * intros [-> ->]. replace ((x2 - x2)² + (y2 - y2)²) with 0 by (unfold Rsqr; ring).
        apply sqrt_0.
    + pose proof (triangle x3 y3 x1 y1 x2 y2) as T. unfold dist_euc in T.
      lra.
Qed.

(** ** [getAngle] and [closestItCanBe] *)

Lemma hypotenuse (dx dy : R) :
  dx <> 0 -> sqrt (dx² + dy²) = Rabs dx * sqrt (1 + (dy / dx)²).
Proof.
  intros Hdx. rewrite <- sqrt_Rsqr_abs. rewrite <- sqrt_mult_alt by apply Rle_0_sqr.
  f_equal. unfold Rsqr. field. exact Hdx.
Qed.

Lemma root_pos (t : R) : 0 < sqrt (1 + t²).
Proof. apply sqrt_lt_R0. pose proof (Rle_0_sqr t). lra. Qed.

Lemma polar_slanted (dx dy : R) :
  dx <> 0 ->
  let a := atan (dy / dx) + (if Rlt_dec dx 0 then PI else 0) in
  sqrt (dx² + dy²) * cos a = dx /\ sqrt (dx² + dy²) * sin a = dy.
Proof.
  intros Hdx a. unfold a. rewrite hypotenuse by exact Hdx.
  pose proof (root_pos (dy / dx)) as Hs.
  destruct (Rlt_dec dx 0) as [Hneg|Hpos].
  - rewrite neg_cos, neg_sin, cos_atan, sin_atan, Rabs_left by exact Hneg.
    split; field; lra.
  - rewrite Rplus_0_r, cos_atan, sin_atan, Rabs_right by lra.
    split; field; lra.
Qed.

Lemma getAngle_direction (x1 y1 x2 y2 : R) :
  x1 <> x2 \/ y1 <> y2 ->
  exists a d : R,
    getAngle (pt x1 y1) (pt x2 y2) = Num a
    /\ distance2D (pt x1 y1) (pt x2 y2) = Num d
    /\ 0 < d
    /\ x2 = x1 + d * cos a
    /\ y2 = y1 + d * sin a
    /\ - (PI / 2) <= a < 3 * (PI / 2).
Proof.
  intros Hne. rewrite distance2D_real.
  assert (0 < sqrt ((x2 - x1)² + (y2 - y1)²)) as Hd.
  { apply sqrt_lt_R0. pose proof (Rle_0_sqr (x2 - x1)). pose proof (Rle_0_sqr (y2 - y1)).
    destruct Hne as [Hx|Hy].
    - assert (0 < (x2 - x1)²) by (apply Rsqr_pos_lt; lra). lra.
    - assert (0 < (y2 - y1)²) by (apply Rsqr_pos_lt; lra). lra. }
  pose proof PI_RGT_0 as Hpi.
  destruct (Req_dec x1 x2) as [E|E].
  - subst x2. destruct Hne as [Hx|Hy]; [contradiction|].
    replace ((x1 - x1)² + (y2 - y1)²) with ((y2 - y1)²) in * by (unfold Rsqr; ring).
    rewrite sqrt_Rsqr_abs in *.
    destruct (Rlt_dec y1 y2) as [Hup|Hdown].
    + rewrite getAngle_above by exact Hup. do 2 eexists.
      split; [reflexivity|]. split; [reflexivity|]. split; [exact Hd|].
      rewrite cos_PI2, sin_PI2, Rabs_right by lra. repeat split; lra.
    + rewrite getAngle_below by lra. do 2 eexists.
      split; [reflexivity|]. split; [reflexivity|]. split; [exact Hd|].
      rewrite cos_neg, sin_neg, cos_PI2, sin_PI2, Rabs_left by lra.
      repeat split; lra.
  - rewrite getAngle_slanted by exact E. do 2 eexists.
    split; [reflexivity|]. split; [reflexivity|]. split; [exact Hd|].
    destruct (polar_slanted (x2 - x1) (y2 - y1) ltac:(lra)) as [Hc Hs].
    pose proof (atan_bound ((y2 - y1) / (x2 - x1))) as Hb.
    destruct (Rlt_dec x2 x1) as [Hl|Hr].
    + destruct (Rlt_dec (x2 - x1) 0) as [_|F]; [|lra].
      rewrite Hc, Hs. repeat split; lra.
    + destruct (Rlt_dec (x2 - x1) 0) as [F|_]; [lra|].
      rewrite Hc, Hs. repeat split; lra.
Qed.

(** X3. For two distinct points with real coordinates [getAngle] is the
    direction from the first to the second: the second point is the first
    plus the distance times (cos angle, sin angle).  The angle lies in
    [-PI/2, 3 PI/2). *)
Theorem getAngle_polar (x1 y1 x2 y2 : R) :
  x1 <> x2 \/ y1 <> y2 ->
  exists a d : R,
    getAngle (pt x1 y1) (pt x2 y2) = Num a
    /\ distance2D (pt x1 y1) (pt x2 y2) = Num d
    /\ 0 < d
    /\ x2 = x1 + d * cos a
    /\ y2 = y1 + d * sin a
    /\ - (PI / 2) <= a < 3 * (PI / 2).
Proof. apply getAngle_direction. Qed.

Lemma getAngle_polar_witness :
  exists a d : R,
    getAngle (pt 0 0) (pt (-3) 4) = Num a
    /\ distance2D (pt 0 0) (pt (-3) 4) = Num d
    /\ -3 = 0 + d * cos a /\ 4 = 0 + d * sin a.
Proof.
  destruct (getAngle_polar 0 0 (-3) 4) as (a & d & Ha & Hd & _ & Hx & Hy & _).
  - left. lra.
  - exists a, d. repeat split; assumption.
Defined.

Lemma sqrt_100 : sqrt 100 = 10.
Proof. replace 100 with (10 * 10) by lra. apply sqrt_square. lra. Qed.

Lemma on_circle (a : R) : (10 * cos a)² + (10 * sin a)² = 100.
Proof. pose proof (sin2_cos2 a) as H. unfold Rsqr in *. nra. Qed.

Lemma closestItCanBe_real (cx cy bx by_ a : R) :
  getAngle (pt cx cy) (pt bx by_) = Num a ->
  closestItCanBe (pt cx cy) (pt bx by_) = pt (cx + 10 * cos a) (cy + 10 * sin a).
Proof.
  intros Ha. unfold closestItCanBe. rewrite Ha. unfold pt, wallWidth, ballSize.
  cbn [Point.x Point.y]. num_eval. f_equal; f_equal; lra.
Qed.

(** X4. For a ball that is not on the cap, [closestItCanBe] returns the
    point at distance wallWidth/2 + ballSize/2 = 10 from the cap in the
    direction of the ball; a ball that is at that distance already is
    returned as it is.  For a ball on the cap both coordinates are [NaN]. *)
Theorem closestItCanBe_on_circle (cx cy bx by_ : R) :
  (cx <> bx \/ cy <> by_ ->
   exists x y d : R,
     closestItCanBe (pt cx cy) (pt bx by_) = pt x y
     /\ distance2D (pt cx cy) (pt bx by_) = Num d
     /\ distance2D (pt cx cy) (pt x y) = Num 10
     /\ d * (x - cx) = 10 * (bx - cx)
     /\ d * (y - cy) = 10 * (by_ - cy)
     /\ (d = 10 -> x = bx /\ y = by_))
  /\ closestItCanBe (pt cx cy) (pt cx cy) = Point.mk NaN NaN.
Proof.
  split.
  - intros Hne.
    destruct (getAngle_direction cx cy bx by_ Hne) as (a & d & Ha & Hd & Hpos & Hx & Hy & _).
    exists (cx + 10 * cos a), (cy + 10 * sin a), d.
    split; [now apply closestItCanBe_real|]. split; [exact Hd|]. split.
    { rewrite distance2D_real.
      replace (cx + 10 * cos a - cx) with (10 * cos a) by ring.
      replace (cy + 10 * sin a - cy) with (10 * sin a) by ring.
      now rewrite on_circle, sqrt_100. }
    split; [rewrite Hx; ring|]. split; [rewrite Hy; ring|].
    intros ->. split; lra.
  - unfold closestItCanBe. rewrite getAngle_coincident. reflexivity.
Qed.

Lemma closestItCanBe_on_circle_witness :
  exists x y : R,
    closestItCanBe (pt 80 80) (pt 83 84) = pt x y
    /\ distance2D (pt 80 80) (pt x y) = Num 10.
Proof.
  destruct (closestItCanBe_on_circle 80 80 83 84) as [H _].
  destruct H as (x & y & d & Hc & _ & Hd & _).
  - left. lra.
  - exists x, y. split; assumption.
Defined.

(** ** [rollAroundCap] on the circle around a cap *)

Lemma rollAroundCap_real (cx cy x y vx vy ia h : R) (nx ny : option number) :
  getAngle (pt x y) (pt cx cy) = Num ia ->
  getAngle (pt 0 0) (pt vx vy) = Num h ->
  let rot := atan (sin (ia - h) * sqrt (vx² + vy²) / 10) in
  let dx := cos (ia + PI - rot) * 10 in
  let dy := sin (ia + PI - rot) * 10 in
  rollAroundCap (pt cx cy) (Ball.mk (Num x) (Num y) (Num vx) (Num vy) nx ny)
  = Ball.mk (Num x) (Num y) (Num (x - (cx + dx))) (Num (y - (cy + dy)))
            (Some (Num (x + (x - (cx + dx))))) (Some (Num (y + (y - (cy + dy))))).
Proof.
  intros Hia Hh rot dx dy. unfold rollAroundCap. cbv zeta.
  unfold Ball.point, Ball.velocity.
  cbn [Ball.x Ball.y Ball.velocityX Ball.velocityY Point.x Point.y].
  change (Point.mk (Num x) (Num y)) with (pt x y).
  change (Point.mk (Num 0) (Num 0)) with (pt 0 0).
  change (Point.mk (Num vx) (Num vy)) with (pt vx vy).
  rewrite Hia, Hh, distance2D_real. unfold pt, wallWidth, ballSize.
  cbn [Point.x Point.y]. num_eval.
  unfold dx, dy, rot.
  replace ((vx - 0)² + (vy - 0)²) with (vx² + vy²) by (unfold Rsqr; ring).
  replace (10 / 2 + 10 / 2) with 10 by lra.
  replace (ia + - h) with (ia - h) by ring.
  replace (ia + PI + - atan (sin (ia - h) * sqrt (vx² + vy²) / 10))
    with (ia + PI - atan (sin (ia - h) * sqrt (vx² + vy²) / 10)) by ring.
  f_equal; repeat first [apply (f_equal (@Some number)) | apply (f_equal Num)]; ring.
Qed.

Lemma chord (c s C S : R) :
  c² + s² = 1 -> C² + S² = 1 ->
  (10 * (c * C + s * S) - 10 * c)² + (10 * (s * C - c * S) - 10 * s)²
  = 200 * (1 - C).
Proof.
  unfold Rsqr. intros Hc HC.
  replace ((10 * (c * C + s * S) - 10 * c) * (10 * (c * C + s * S) - 10 * c)
           + (10 * (s * C - c * S) - 10 * s) * (10 * (s * C - c * S) - 10 * s))
    with (100 * ((c * c + s * s) * ((C * C + S * S) - 2 * C + 1))) by ring.
  rewrite Hc, HC. ring.
Qed.

Lemma far_side (c s C S : R) :
  c² + s² = 1 -> C² + S² = 1 ->
  (10 * (c * C + s * S) - 20 * c)² + (10 * (s * C - c * S) - 20 * s)²
  = 100 * (5 - 4 * C).
Proof.
  unfold Rsqr. intros Hc HC.
  replace ((10 * (c * C + s * S) - 20 * c) * (10 * (c * C + s * S) - 20 * c)
           + (10 * (s * C - c * S) - 20 * s) * (10 * (s * C - c * S) - 20 * s))
    with (100 * ((c * c + s * s) * ((C * C + S * S) - 4 * C + 4))) by ring.
  rewrite Hc, HC. ring.
Qed.

(** The cosine of the rotation angle, against the speed of the ball. *)
Lemma turn_bound (z : R) :
  let C := cos (atan z) in
  0 < C <= 1 /\ 200 * (1 - C) <= 100 * z².
Proof.
  intros C. unfold C. rewrite cos_atan.
  pose proof (root_pos z) as Hr.
  assert (sqrt (1 + z²) * sqrt (1 + z²) = 1 + z²) as Hsq.
  { apply sqrt_sqrt. pose proof (Rle_0_sqr z). lra. }
  pose proof (Rle_0_sqr z) as Hz.
  assert (1 <= sqrt (1 + z²)) as H1 by nra.
  set (r := sqrt (1 + z²)) in *.
  assert (1 / r * r = 1) as Hinv by (field; lra).
  assert (0 < 1 / r) as Hpos by (apply Rdiv_lt_0_compat; lra).
  repeat split; nra.
Qed.

(** Where [rollAroundCap] sends a moving ball that sits on the circle of
    radius 10 around the cap. *)
Lemma rollAroundCap_turn (cx cy x y vx vy : R) (nx ny : option number) :
  (x - cx)² + (y - cy)² = 100 ->
  vx <> 0 \/ vy <> 0 ->
  exists c s C S : R,
    c² + s² = 1 /\ C² + S² = 1 /\ 0 < C <= 1
    /\ 200 * (1 - C) <= vx² + vy²
    /\ x - cx = - (10 * c) /\ y - cy = - (10 * s)
    /\ rollAroundCap (pt cx cy) (Ball.mk (Num x) (Num y) (Num vx) (Num vy) nx ny)
       = Ball.mk (Num x) (Num y)
                 (Num (10 * (c * C + s * S) - 10 * c))
                 (Num (10 * (s * C - c * S) - 10 * s))
                 (Some (Num (x + (10 * (c * C + s * S) - 10 * c))))
                 (Some (Num (y + (10 * (s * C - c * S) - 10 * s)))).
Proof.
  intros Hon Hv.
  assert (x <> cx \/ y <> cy) as Hne.
  { destruct (Req_dec x cx) as [->|E]; [|now left].
    destruct (Req_dec y cy) as [->|E]; [|now right].
    exfalso. unfold Rsqr in Hon. lra. }
  destruct (getAngle_direction x y cx cy Hne) as (ia & d & Hia & Hd & Hpos & Hx & Hy & _).
  rewrite distance2D_real in Hd. injection Hd as Hd.
  assert (d = 10) as ->.
  { rewrite <- Hd. replace ((cx - x)² + (cy - y)²) with 100.
    - apply sqrt_100.
    - rewrite <- Hon. unfold Rsqr. ring. }
  destruct (getAngle_direction 0 0 vx vy) as (h & _ & Hh & _).
  { destruct Hv as [Hv|Hv]; [left|right]; intros E; apply Hv; now symmetry. }
  set (z := sin (ia - h) * sqrt (vx² + vy²) / 10).
  destruct (turn_bound z) as [HC Hz].
  exists (cos ia), (sin ia), (cos (atan z)), (sin (atan z)).
  split; [rewrite Rplus_comm; apply sin2_cos2|].
  split; [rewrite Rplus_comm; apply sin2_cos2|].
  split; [exact HC|]. split.
  { apply Rle_trans with (1 := Hz). unfold z.
    assert (sqrt (vx² + vy²) * sqrt (vx² + vy²) = vx² + vy²) as Hsq.
    { apply sqrt_sqrt. pose proof (Rle_0_sqr vx). pose proof (Rle_0_sqr vy). lra. }
    pose proof (SIN_bound (ia - h)) as Hs. unfold Rsqr in *.
    set (m := sqrt (vx * vx + vy * vy)) in *. set (t := sin (ia - h)) in *.
    assert (0 <= m * m) by nra.
    assert (t * t <= 1) by nra.
    replace (100 * (t * m / 10 * (t * m / 10))) with ((t * t) * (m * m)) by field.
    nra. }
  split; [lra|]. split; [lra|].
  rewrite (rollAroundCap_real cx cy x y vx vy ia h nx ny Hia Hh). fold z.
  replace (ia + PI - atan z) with ((ia - atan z) + PI) by ring.
  rewrite neg_cos, neg_sin, cos_minus, sin_minus.
  f_equal; repeat first [apply (f_equal (@Some number)) | apply (f_equal Num)]; lra.
Qed.

(** X5. [rollAroundCap], given a ball on the circle of radius 10 around
    the cap whose velocity is not zero, returns a next position that is at
    least 10 away from the cap. *)
Theorem rollAroundCap_keeps_clear (cx cy x y vx vy : R) (nx ny : option number) :
  (x - cx)² + (y - cy)² = 100 ->
  vx <> 0 \/ vy <> 0 ->
  let rolled :=
    rollAroundCap (pt cx cy) (Ball.mk (Num x) (Num y) (Num vx) (Num vy) nx ny) in
  exists nx' ny' : R,
    Ball.nextX rolled = Some (Num nx') /\ Ball.nextY rolled = Some (Num ny')
    /\ 100 <= (nx' - cx)² + (ny' - cy)²
    /\ distance2D (pt cx cy) (Ball.next rolled) = Num (sqrt ((nx' - cx)² + (ny' - cy)²))
    /\ 10 <= sqrt ((nx' - cx)² + (ny' - cy)²).
Proof.
  intros Hon Hv rolled.
  destruct (rollAroundCap_turn cx cy x y vx vy nx ny Hon Hv)
    as (c & s & C & S & Hc & HC & Hpos & _ & Hx & Hy & Hroll).
  unfold rolled. rewrite Hroll. cbn [Ball.nextX Ball.nextY]. do 2 eexists.
  split; [reflexivity|]. split; [reflexivity|].
  assert (100 <= (x + (10 * (c * C + s * S) - 10 * c) - cx)²
                 + (y + (10 * (s * C - c * S) - 10 * s) - cy)²) as Hfar.
  { replace (x + (10 * (c * C + s * S) - 10 * c) - cx)
      with (10 * (c * C + s * S) - 20 * c) by lra.
    replace (y + (10 * (s * C - c * S) - 10 * s) - cy)
      with (10 * (s * C - c * S) - 20 * s) by lra.
    rewrite (far_side c s C S Hc HC). lra. }
  split; [exact Hfar|]. split.
  - unfold Ball.next. cbn [Ball.nextX Ball.nextY toNumber].
    apply (distance2D_real cx cy).
  - apply Rle_trans with (sqrt 100); [rewrite sqrt_100; lra|].
    apply sqrt_le_1_alt. exact Hfar.
Qed.

(** X6. [rollAroundCap], given a ball on the circle of radius 10 around
    the cap whose velocity is not zero, returns a velocity whose Euclidean
    norm is at most that of the velocity it was given (and less than
    10 sqrt 2): the deflection can raise one component, as C4 shows, but
    not the speed. *)
Theorem rollAroundCap_no_speedup (cx cy x y vx vy : R) (nx ny : option number) :
  (x - cx)² + (y - cy)² = 100 ->
  vx <> 0 \/ vy <> 0 ->
  let rolled :=
    rollAroundCap (pt cx cy) (Ball.mk (Num x) (Num y) (Num vx) (Num vy) nx ny) in
  exists vx' vy' : R,
    Ball.velocityX rolled = Num vx' /\ Ball.velocityY rolled = Num vy'
    /\ vx'² + vy'² <= vx² + vy²
    /\ vx'² + vy'² < 200.
Proof.
  intros Hon Hv rolled.
  destruct (rollAroundCap_turn cx cy x y vx vy nx ny Hon Hv)
    as (c & s & C & S & Hc & HC & Hpos & Hturn & _ & _ & Hroll).
  unfold rolled. rewrite Hroll. cbn [Ball.velocityX Ball.velocityY]. do 2 eexists.
  split; [reflexivity|]. split; [reflexivity|].
  rewrite (chord c s C S Hc HC). split; lra.
Qed.

(** ** The cap block of [main] *)

Lemma hitsCap_real (cx cy nx ny : R) (b : Ball.t) :
  Ball.nextX b = Some (Num nx) -> Ball.nextY b = Some (Num ny) ->
  hitsCap (pt cx cy) b = Rltb (sqrt ((nx - cx)² + (ny - cy)²)) 10.
Proof.
  intros Hnx Hny. unfold hitsCap, Ball.next. rewrite Hnx, Hny. cbn [toNumber].
  change (Point.mk (Num nx) (Num ny)) with (pt nx ny).
  rewrite distance2D_real. unfold ballSize, wallWidth. num_eval.
  f_equal. lra.
Qed.

(** X7. The cap block of [main].  A ball whose next position is at least 10
    from the cap is left as it is.  A ball with a velocity that is not zero
    whose next position is nearer than 10 to the cap, and not on it, is put
    on the circle of radius 10 around the cap, on the ray from the cap
    through that next position; its new next position is its position plus
    its new velocity and is at least 10 from the cap; and its speed is not
    raised. *)
Theorem resolveCap_puts_on_circle (cx cy nx ny vx vy : R) (b : Ball.t) :
  Ball.nextX b = Some (Num nx) -> Ball.nextY b = Some (Num ny) ->
  Ball.velocityX b = Num vx -> Ball.velocityY b = Num vy ->
  (100 <= (nx - cx)² + (ny - cy)² -> resolveCap (pt cx cy) b = b)
  /\ (0 < (nx - cx)² + (ny - cy)² < 100 ->
      vx <> 0 \/ vy <> 0 ->
      exists x y vx' vy' : R,
        resolveCap (pt cx cy) b
        = Ball.mk (Num x) (Num y) (Num vx') (Num vy')
                  (Some (Num (x + vx'))) (Some (Num (y + vy')))
        /\ (x - cx)² + (y - cy)² = 100
        /\ (x - cx) * (ny - cy) = (y - cy) * (nx - cx)
        /\ 0 < (x - cx) * (nx - cx) + (y - cy) * (ny - cy)
        /\ 100 <= (x + vx' - cx)² + (y + vy' - cy)²
        /\ vx'² + vy'² <= vx² + vy²).
Proof.
  intros Hnx Hny Hvx Hvy. split.
  - intros Hfar. unfold resolveCap. rewrite (hitsCap_real cx cy nx ny b Hnx Hny).
    rewrite Rltb_false; [reflexivity|].
    apply Rle_trans with (sqrt 100); [rewrite sqrt_100; lra|].
    now apply sqrt_le_1_alt.
  - intros [Hpos Hnear] Hv. unfold resolveCap.
    rewrite (hitsCap_real cx cy nx ny b Hnx Hny).
    rewrite Rltb_true.
    2:{ apply Rlt_le_trans with (sqrt 100); [|rewrite sqrt_100; lra].
        apply sqrt_lt_1_alt. split; [lra | exact Hnear]. }
    unfold Object_assign, Ball.next. rewrite Hnx, Hny, Hvx, Hvy. cbn [toNumber].
    change (Point.mk (Num nx) (Num ny)) with (pt nx ny).
    assert (cx <> nx \/ cy <> ny) as Hne.
    { destruct (Req_dec cx nx) as [->|E]; [|now left].
      destruct (Req_dec cy ny) as [->|E]; [|now right].
      exfalso. unfold Rsqr in Hpos. lra. }
    destruct (getAngle_direction cx cy nx ny Hne) as (a & d & Ha & _ & Hd & Hx & Hy & _).
    rewrite (closestItCanBe_real cx cy nx ny a Ha). unfold pt at 2 3.
    cbn [Point.x Point.y].
    assert ((cx + 10 * cos a - cx)² + (cy + 10 * sin a - cy)² = 100) as Hon.
    { replace (cx + 10 * cos a - cx) with (10 * cos a) by ring.
      replace (cy + 10 * sin a - cy) with (10 * sin a) by ring.
      apply on_circle. }
    destruct (rollAroundCap_turn cx cy (cx + 10 * cos a) (cy + 10 * sin a) vx vy
                                 None None Hon Hv)
      as (c & s & C & S & Hc & HC & HCpos & Hturn & Hcx & Hcy & Hroll).
    rewrite Hroll. do 4 eexists. split; [reflexivity|].
    split; [exact Hon|].
    pose proof (sin2_cos2 a) as Hsc. unfold Rsqr in Hsc.
    split; [rewrite Hx, Hy; ring|]. split.
    { rewrite Hx, Hy.
      replace ((cx + 10 * cos a - cx) * (cx + d * cos a - cx)
               + (cy + 10 * sin a - cy) * (cy + d * sin a - cy))
        with (10 * d * (sin a * sin a + cos a * cos a)) by ring.
      rewrite Hsc. lra. }
    split.
    { replace (cx + 10 * cos a + (10 * (c * C + s * S) - 10 * c) - cx)
        with (10 * (c * C + s * S) - 20 * c) by lra.
      replace (cy + 10 * sin a + (10 * (s * C - c * S) - 10 * s) - cy)
        with (10 * (s * C - c * S) - 20 * s) by lra.
      rewrite (far_side c s C S Hc HC). lra. }
    rewrite (chord c s C S Hc HC). lra.
Qed.

Lemma resolveCap_puts_on_circle_witness :
  exists x y vx' vy' : R,
    resolveCap (pt 80 80) (launched 85.72 71.79)
    = Ball.mk (Num x) (Num y) (Num vx') (Num vy')
              (Some (Num (x + vx'))) (Some (Num (y + vy')))
    /\ (x - 80)² + (y - 80)² = 100
    /\ 100 <= (x + vx' - 80)² + (y + vy' - 80)².
Proof.
  destruct (resolveCap_puts_on_circle 80 80 (85.72 + 1 / 4) (71.79 + 1 / 4)
              (1 / 4) (1 / 4) (launched 85.72 71.79)
              eq_refl eq_refl eq_refl eq_refl) as [_ H].
  destruct H as (x & y & vx' & vy' & Hr & Hon & _ & _ & Hfar & _).
  - unfold Rsqr. lra.
  - left. lra.
  - exists x, y, vx', vy'. repeat split; assumption.
Defined.

Lemma rollAroundCap_keeps_clear_witness :
  exists nx' ny' : R,
    Ball.nextX (rollAroundCap (pt 80 80)
                  (Ball.mk (Num 86) (Num 72) (Num 0.25) (Num 0.25) None None))
    = Some (Num nx')
    /\ Ball.nextY (rollAroundCap (pt 80 80)
                     (Ball.mk (Num 86) (Num 72) (Num 0.25) (Num 0.25) None None))
       = Some (Num ny')
    /\ 100 <= (nx' - 80)² + (ny' - 80)².
Proof.
  destruct (rollAroundCap_keeps_clear 80 80 86 72 0.25 0.25 None None)
    as (nx' & ny' & Hx & Hy & Hfar & _).
  - unfold Rsqr. lra.
  - left. lra.
  - exists nx', ny'. repeat split; assumption.
Defined.

Lemma rollAroundCap_no_speedup_witness :
  exists vx' vy' : R,
    Ball.velocityX (rollAroundCap (pt 80 80)
                      (Ball.mk (Num 86) (Num 72) (Num 0.25) (Num 0.25) None None))
    = Num vx'
    /\ Ball.velocityY (rollAroundCap (pt 80 80)
                         (Ball.mk (Num 86) (Num 72) (Num 0.25) (Num 0.25) None None))
       = Num vy'
    /\ vx'² + vy'² <= 0.25² + 0.25².
Proof.
  destruct (rollAroundCap_no_speedup 80 80 86 72 0.25 0.25 None None)
    as (vx' & vy' & Hx & Hy & Hslow & _).
  - unfold Rsqr. lra.
  - left. lra.
  - exists vx', vy'. repeat split; assumption.
Defined.

(** ** Wall bodies *)

(** X8. A horizontal wall and a ball whose next position lies between the
    two ends of the wall and at most 10 above or below its centerline
    (bounds included): the ball is put 10 above the centerline when the
    next position is above it, and 10 below otherwise; velocityY is
    inverted and divided by 6; x and velocityX are untouched; no cap is
    tested. *)
Theorem horizontal_body_hit (wx wy wl nx ny : R) (b : Ball.t) :
  Ball.nextX b = Some (Num nx) -> Ball.nextY b = Some (Num ny) ->
  wx <= nx <= wx + wl -> wy - 10 <= ny <= wy + 10 ->
  let side := if Rlt_dec ny wy then wy - 10 else wy + 10 in
  collide (Wall.mk (Num wx) (Num wy) true (Num wl)) b
  = Ball.mk (Ball.x b) (Num side) (Ball.velocityX b)
            (- Ball.velocityY b / Num 6)%js
            (Some (Num nx)) (Some (Num side)).
Proof.
  intros Hnx Hny Hx Hy side. unfold side.
  destruct (Rlt_dec ny wy) as [Htop|Hbottom].
  - unfold_collide. crunch Hnx Hny.
    all: try (exfalso; lra).
    all: ball_eq Hnx Hny.
  - unfold_collide. crunch Hnx Hny.
    all: try (exfalso; lra).
    all: ball_eq Hnx Hny.
Qed.

Lemma horizontal_body_hit_witness :
  collide (Wall.mk (Num 0) (Num 40) true (Num 40)) (launched 20 49.5)
  = Ball.mk (Num 20) (Num 50) (Num (1 / 4)) (- Num (1 / 4) / Num 6)%js
            (Some (Num (20 + 1 / 4))) (Some (Num 50)).
Proof.
  rewrite (horizontal_body_hit 0 40 40 (20 + 1 / 4) (49.5 + 1 / 4) (launched 20 49.5)
             eq_refl eq_refl ltac:(lra) ltac:(lra)).
  cbn [launched Ball.x Ball.velocityX Ball.velocityY].
  destruct (Rlt_dec (49.5 + 1 / 4) 40) as [F|_]; [exfalso; lra|].
  f_equal; repeat first [apply (f_equal (@Some number)) | apply (f_equal Num)]; lra.
Defined.

(** X9. A vertical wall and a ball whose next position lies between the two
    ends of the wall and at most 10 left or right of its centerline (bounds
    included): the ball is put 10 to the left of the centerline when the
    next position is left of it, and 10 to the right otherwise; velocityX
    is inverted and divided by 6; y and velocityY are untouched. *)
Theorem vertical_body_hit (wx wy wl nx ny : R) (b : Ball.t) :
  Ball.nextX b = Some (Num nx) -> Ball.nextY b = Some (Num ny) ->
  wx - 10 <= nx <= wx + 10 -> wy <= ny <= wy + wl ->
  let side := if Rlt_dec nx wx then wx - 10 else wx + 10 in
  collide (Wall.mk (Num wx) (Num wy) false (Num wl)) b
  = Ball.mk (Num side) (Ball.y b)
            (- Ball.velocityX b / Num 6)%js (Ball.velocityY b)
            (Some (Num side)) (Some (Num ny)).
Proof.
  intros Hnx Hny Hx Hy side. unfold side.
  destruct (Rlt_dec nx wx) as [Hleft|Hright].
  - unfold_collide. crunch Hnx Hny.
    all: try (exfalso; lra).
    all: ball_eq Hnx Hny.
  - unfold_collide. crunch Hnx Hny.
    all: try (exfalso; lra).
    all: ball_eq Hnx Hny.
Qed.

Lemma vertical_body_hit_witness :
  collide (Wall.mk (Num 200) (Num 0) false (Num 40)) (launched 209.5 20)
  = Ball.mk (Num 210) (Num 20) (- Num (1 / 4) / Num 6)%js (Num (1 / 4))
            (Some (Num 210)) (Some (Num (20 + 1 / 4))).
Proof.
  rewrite (vertical_body_hit 200 0 40 (209.5 + 1 / 4) (20 + 1 / 4) (launched 209.5 20)
             eq_refl eq_refl ltac:(lra) ltac:(lra)).
  cbn [launched Ball.y Ball.velocityX Ball.velocityY].
  destruct (Rlt_dec (209.5 + 1 / 4) 200) as [F|_]; [exfalso; lra|].
  f_equal; repeat first [apply (f_equal (@Some number)) | apply (f_equal Num)]; lra.
Defined.

(** ** A wall acts within the two radii of its centerline *)

Lemma sqrt_gt_10 (a : R) : 10 < sqrt a -> 100 < a.
Proof.
  intros H. destruct (Rle_dec a 100) as [Hle|Hgt]; [|lra].
  exfalso. apply (sqrt_le_1_alt a 100) in Hle. rewrite sqrt_100 in Hle. lra.
Qed.

Lemma far_from_line (u : R) : 100 < u² -> u < - 10 \/ 10 < u.
Proof. unfold Rsqr. intros H. destruct (Rlt_dec u (- 10)); [now left|right]. nra. Qed.

Ltac clear_of_wall wx wy wl nx ny b Hnx Hny :=
  repeat (progress
            (cbn [andb orb negb]; rewrite ?Hnx, ?Hny; num_eval; cmp_cases;
             unfold resolveCap;
             rewrite ?(hitsCap_far wx wy b nx ny Hnx Hny) by nra;
             rewrite ?(hitsCap_far (wx + wl) wy b nx ny Hnx Hny) by nra;
             rewrite ?(hitsCap_far wx (wy + wl) b nx ny Hnx Hny) by nra));
  solve [ reflexivity | exfalso; lra | exfalso; nra ].

Lemma collide_clear (wx wy wl nx ny d : R) (h : bool) (b : Ball.t) :
  0 <= wl ->
  Ball.nextX b = Some (Num nx) -> Ball.nextY b = Some (Num ny) ->
  centerlineDistance (Wall.mk (Num wx) (Num wy) h (Num wl)) (pt nx ny) = Num d ->
  10 < d ->
  collide (Wall.mk (Num wx) (Num wy) h (Num wl)) b = b.
Proof.
  intros Hl Hnx Hny Hd Hfar. revert Hd.
  unfold centerlineDistance, distance2D, pt.
  cbn [Wall.x Wall.y Wall.length Wall.horizontal Point.x Point.y].
  destruct h; num_eval; cmp_cases; num_eval; intros [= <-];
    apply sqrt_gt_10 in Hfar;
    unfold collide, mightHitStartCap, mightHitEndCap, nextXOf, nextYOf,
      ballSize, wallWidth;
    cbn [Wall.x Wall.y Wall.length Wall.horizontal Point.x Point.y];
    clear_of_wall wx wy wl nx ny b Hnx Hny.
Qed.

(** X10. A wall changes nothing of a ball whose next position is farther
    than 10 from the centerline of the wall, the segment between its two
    cap centers. *)
Theorem wall_acts_within_reach (wx wy wl nx ny d : R) (h : bool) (b : Ball.t) :
  0 <= wl ->
  Ball.nextX b = Some (Num nx) -> Ball.nextY b = Some (Num ny) ->
  centerlineDistance (Wall.mk (Num wx) (Num wy) h (Num wl)) (pt nx ny) = Num d ->
  10 < d ->
  collide (Wall.mk (Num wx) (Num wy) h (Num wl)) b = b.
Proof. apply collide_clear. Qed.

Lemma wall_acts_within_reach_witness :
  collide (Wall.mk (Num 40) (Num 80) true (Num 40)) (launched 88 86.5)
  = launched 88 86.5.
Proof.
  apply (wall_acts_within_reach 40 80 40 (88 + 1 / 4) (86.5 + 1 / 4)
           (sqrt ((40 + 40 + - (88 + 1 / 4)) * (40 + 40 + - (88 + 1 / 4))
                  + (80 + - (86.5 + 1 / 4)) * (80 + - (86.5 + 1 / 4))))).
  - lra.
  - reflexivity.
  - reflexivity.
  - unfold centerlineDistance, distance2D, pt.
    cbn [Wall.x Wall.y Wall.length Wall.horizontal Point.x Point.y]. now num_eval.
  - apply Rle_lt_trans with (sqrt 100); [rewrite sqrt_100; lra|].
    apply sqrt_lt_1_alt. lra.
Defined.

(** Every wall of the maze has finite coordinates and a positive length. *)
Lemma walls_finite :
  Forall (fun w => exists (wx wy wl : R) (h : bool),
                     w = Wall.mk (Num wx) (Num wy) h (Num wl) /\ 0 <= wl) walls.
Proof.
  unfold walls, wallTable, H, V. cbn [map].
  repeat (constructor;
          [ rewrite toWall_pixels; do 4 eexists; split; [reflexivity | lra] |]).
  constructor.
Qed.

Lemma collideAll_clear (ws : list Wall.t) (b : Ball.t) (nx ny : R) :
  Ball.nextX b = Some (Num nx) -> Ball.nextY b = Some (Num ny) ->
  Forall (fun w => exists (wx wy wl : R) (h : bool),
                     w = Wall.mk (Num wx) (Num wy) h (Num wl) /\ 0 <= wl) ws ->
  Forall (fun w => exists d : R, centerlineDistance w (pt nx ny) = Num d /\ 10 < d) ws ->
  collideAll ws b = b.
Proof.
  intros Hnx Hny Hfin Hfar. induction Hfin as [|w ws Hw _ IH]; [reflexivity|].
  inversion Hfar as [|? ? (d & Hd & Hgt) Hrest]; subst.
  destruct Hw as (wx & wy & wl & h & -> & Hl).
  rewrite collideAll_cons, (collide_clear wx wy wl nx ny d h b Hl Hnx Hny Hd Hgt).
  now apply IH.
Qed.

(** X11. When the position that the updated velocity leads to is farther
    than 10 from the centerline of every wall of the maze, the tick moves
    the ball by exactly that velocity: the displacement of a frame is the
    velocity, whatever time has elapsed. *)
Theorem step_in_the_open (t : Tilt) (b : Ball.t) (x y vx vy : R) :
  Ball.x b = Num x -> Ball.y b = Num y ->
  updateVelocityX (velocityChangeX t) (frictionDeltaX t) (Ball.velocityX b) = Num vx ->
  updateVelocityY (velocityChangeY t) (frictionDeltaY t) (Ball.velocityY b) = Num vy ->
  Forall (fun w => exists d : R,
                     centerlineDistance w (pt (x + vx) (y + vy)) = Num d /\ 10 < d)
         walls ->
  stepBall t b
  = Ball.mk (Num (x + vx)) (Num (y + vy)) (Num vx) (Num vy)
            (Some (Num (x + vx))) (Some (Num (y + vy))).
Proof.
  intros Hx Hy Hvx Hvy Hfar. unfold stepBall.
  rewrite (setNext_updateVelocity t b x y vx vy Hx Hy Hvx Hvy).
  rewrite (collideAll_clear walls
             (Ball.mk (Num x) (Num y) (Num vx) (Num vy)
                      (Some (Num (x + vx))) (Some (Num (y + vy))))
             (x + vx) (y + vy) eq_refl eq_refl walls_finite Hfar).
  reflexivity.
Qed.

Lemma outOfReach_centerline (w : Wall.t) (nx ny : R) :
  outOfReach w nx ny ->
  exists d : R, centerlineDistance w (pt nx ny) = Num d /\ 10 < d.
Proof.
  destruct w as [wx wy h wl]. unfold outOfReach, finite.
  cbn [Wall.x Wall.y Wall.length Wall.horizontal].
  intros (Hx & Hy & Hl & Hpos & Hout). rewrite Hx, Hy, Hl.
  set (x0 := realOf wx) in *. set (y0 := realOf wy) in *. set (l0 := realOf wl) in *.
  unfold centerlineDistance, distance2D, pt.
  cbn [Wall.x Wall.y Wall.length Wall.horizontal Point.x Point.y].
  destruct h; num_eval; cmp_cases; num_eval;
    (eexists; split; [reflexivity|]);
    (apply Rle_lt_trans with (sqrt 100); [rewrite sqrt_100; lra|]);
    apply sqrt_lt_1_alt; (split; [lra|]).
  all: clearbody x0 y0 l0.
  all: destruct Hout as [Hout|[Hout|[Hout|Hout]]]; try (exfalso; lra).
  all: match goal with
       | |- 100 < ?a * ?a + ?b * ?b =>
           pose proof (Rle_0_sqr a) as Ha; pose proof (Rle_0_sqr b) as Hb;
           unfold Rsqr in Ha, Hb;
           first [ assert (100 < a * a) by nra | assert (100 < b * b) by nra ]
       end; lra.
Qed.

Lemma step_in_the_open_witness :
  stepBall (held 1) (Ball.mk (Num 20) (Num 20) (Num (-0.2)) (Num 0) None None)
  = Ball.mk (Num (20 + -0.1999)) (Num (20 + 0)) (Num (-0.1999)) (Num 0)
            (Some (Num (20 + -0.1999))) (Some (Num (20 + 0))).
Proof.
  apply (step_in_the_open (held 1)
           (Ball.mk (Num 20) (Num 20) (Num (-0.2)) (Num 0) None None)
           20 20 (-0.1999) 0 eq_refl eq_refl).
  - unfold held, tiltOf. cbn [velocityChangeX frictionDeltaX Ball.velocityX].
    rewrite Rmult_0_l, updateVelocityX_flat, slow_neg by lra. f_equal. lra.
  - unfold held, tiltOf. cbn [velocityChangeY frictionDeltaY Ball.velocityY].
    rewrite Rmult_0_l. apply updateVelocityY_rest. lra.
  - eapply Forall_impl; [apply (corridor_free (20 + -0.1999) (20 + 0)); lra|].
    intros w. apply outOfReach_centerline.
Defined.

(** ** The game driver *)

Lemma idle_stays (events : list Event) (s : State) :
  Forall noButton events ->
  gameInProgress s = false ->
  gameInProgress (run events s) = false
  /\ previousTimestamp (run events s) = previousTimestamp s
  /\ balls (run events s) = balls s.
Proof.
  intros Hev. revert s. induction Hev as [|e events He _ IH]; intros s Hs.
  - now repeat split.
  - rewrite run_cons. destruct e as [timestamp|gamma beta| |]; cbn in He;
      try contradiction; cbn [handle].
    + unfold main. rewrite Hs. cbn [negb]. now apply IH.
    + apply (IH (handleDeviceOrientation gamma beta s) Hs).
Qed.

(** X12. After Reset, whatever frames and tilt readings arrive before Start
    is pressed, the first frame after Start only records its timestamp: the
    balls are still where the reset put them and the game is in progress. *)
Theorem first_frame_is_warm_up (s : State) (idle : list Event) (timestamp : number) :
  Forall noButton idle ->
  let s' := run ([Reset] ++ idle ++ [Start; Tick timestamp]) s in
  balls s' = balls (resetGame s)
  /\ gameInProgress s' = true
  /\ previousTimestamp s' = Some timestamp.
Proof.
  intros Hidle s'. unfold s'. rewrite !run_app.
  change (run [Reset] s) with (resetGame s).
  destruct (idle_stays idle (resetGame s) Hidle eq_refl) as (Hg & Hp & Hb).
  set (r := run idle (resetGame s)) in *.
  cbn [run fold_left handle]. unfold startGame. rewrite Hg. cbn [negb].
  unfold main. cbn [gameInProgress negb previousTimestamp]. rewrite Hp.
  cbn [resetGame previousTimestamp gameInProgress balls].
  split; [exact Hb | now split].
Qed.

Lemma first_frame_is_warm_up_witness :
  balls (run ([Reset] ++ [Orientation (Num 37.5) (Num 37.5); Tick (Num 5)]
              ++ [Start; Tick (Num 21)]) allInGoal)
  = balls (resetGame allInGoal).
Proof.
  apply (first_frame_is_warm_up allInGoal
           [Orientation (Num 37.5) (Num 37.5); Tick (Num 5)] (Num 21)).
  repeat constructor.
Defined.

Lemma main_without_tilt (timestamp : number) (s : State) :
  accelerationX s = None \/ accelerationY s = None ->
  balls (main timestamp s) = balls s
  /\ accelerationX (main timestamp s) = accelerationX s
  /\ accelerationY (main timestamp s) = accelerationY s.
Proof.
  intros Hacc. unfold main.
  destruct (gameInProgress s); cbn [negb]; [|now repeat split].
  destruct (previousTimestamp s) as [prev|]; [|now repeat split].
  assert (physics s prev timestamp = balls s) as ->.
  { unfold physics. destruct Hacc as [-> | ->]; [reflexivity|].
    now destruct (accelerationX s). }
  now destruct (forallb inGoal (balls s)).
Qed.

(** X13. As long as no tilt reading has set both accelerations, frames do
    not change the balls. *)
Theorem frames_without_tilt (s : State) (timestamps : list number) :
  accelerationX s = None \/ accelerationY s = None ->
  balls (run (map Tick timestamps) s) = balls s.
Proof.
  revert s. induction timestamps as [|t ts IH]; intros s Hacc; [reflexivity|].
  cbn [map]. rewrite run_cons. cbn [handle].
  destruct (main_without_tilt t s Hacc) as (Hb & Hx & Hy).
  rewrite IH; [exact Hb|]. now rewrite Hx, Hy.
Qed.

Lemma frames_without_tilt_witness :
  balls (run (map Tick [Num 0; Num 16; Num 32]) (startGame (resetGame allInGoal)))
  = balls (startGame (resetGame allInGoal)).
Proof.
  apply (frames_without_tilt (startGame (resetGame allInGoal)) [Num 0; Num 16; Num 32]).
  left. reflexivity.
Defined.

Lemma inGoal_outsideGoal (ball : Ball.t) : outsideGoal ball -> inGoal ball = false.
Proof.
  intros (x & y & Hx & Hy & Hd).
  unfold inGoal, distance2D, center, Ball.point. cbn [Point.x Point.y].
  rewrite Hx, Hy. num_eval.
  apply Rltb_false.
  replace ((400 / 2 + - x) * (400 / 2 + - x) + (400 / 2 + - y) * (400 / 2 + - y))
    with ((200 - x) ^ 2 + (200 - y) ^ 2) by field.
  lra.
Qed.

(** X14. When a tick of a running game reaches its win check with some ball
    at 37.5 or more from the center (200, 200), the game stays in progress
    and the timestamp of the frame is recorded for the next one. *)
Theorem game_goes_on_unless_won (s : State) (prev timestamp : number) :
  gameInProgress s = true ->
  previousTimestamp s = Some prev ->
  Exists outsideGoal (physics s prev timestamp) ->
  let s' := main timestamp s in
  gameInProgress s' = true
  /\ previousTimestamp s' = Some timestamp
  /\ balls s' = physics s prev timestamp.
Proof.
  intros Hg Hp Hout s'. unfold s', main. rewrite Hg, Hp. cbn [negb].
  assert (forallb inGoal (physics s prev timestamp) = false) as ->.
  { induction Hout as [b bs Hb|b bs _ IH]; cbn [forallb].
    - now rewrite (inGoal_outsideGoal b Hb).
    - rewrite IH. apply andb_false_r. }
  cbn [gameInProgress previousTimestamp balls]. now repeat split.
Qed.

Lemma game_goes_on_unless_won_witness :
  let s := run [Reset; Start; Tick (Num 0)] allInGoal in
  gameInProgress (main (Num 16) s) = true
  /\ previousTimestamp (main (Num 16) s) = Some (Num 16).
Proof.
  intros s.
  destruct (game_goes_on_unless_won s (Num 0) (Num 16) eq_refl eq_refl)
    as (Hg & Hp & _).
  - change (physics s (Num 0) (Num 16))
      with [startCell 0 0; startCell 9 0; startCell 0 9; startCell 9 9].
    apply Exists_cons_hd. rewrite startCell_pixels.
    exists (0 * 40 + 20), (0 * 40 + 20). split; [reflexivity|]. split; [reflexivity|].
    apply Rle_trans with (sqrt ((75 / 2) ^ 2)).
    + replace ((75 / 2) ^ 2) with ((75 / 2) * (75 / 2)) by ring.
      rewrite sqrt_square; lra.
    + apply sqrt_le_1_alt. lra.
  - split; assumption.
Defined.

(** ** Tilt readings *)

(** X15. A tilt reading with real angles sets accelerations within
    [-0.1, 0.1] and frictions within [-0.0001, 0.0001], with
    acceleration^2 + (1000 friction)^2 = 0.01 on either axis.  The friction
    of an axis is positive when its angle is within 112.5 degrees, and a
    level axis has acceleration 0 and friction 0.0001.  The reading changes
    neither the balls nor the running flag nor the timestamp. *)
Theorem tilt_reading_bounds (gamma beta : R) (s : State) :
  let s' := handleDeviceOrientation (Num gamma) (Num beta) s in
  exists ax ay fx fy : R,
    accelerationX s' = Some (Num ax) /\ accelerationY s' = Some (Num ay)
    /\ frictionX s' = Some (Num fx) /\ frictionY s' = Some (Num fy)
    /\ - 0.1 <= ax <= 0.1 /\ - 0.1 <= ay <= 0.1
    /\ - 0.0001 <= fx <= 0.0001 /\ - 0.0001 <= fy <= 0.0001
    /\ ax² + (1000 * fx)² = 0.01 /\ ay² + (1000 * fy)² = 0.01
    /\ (- 112.5 < gamma < 112.5 -> 0 < fx)
    /\ (- 112.5 < beta < 112.5 -> 0 < fy)
    /\ (gamma = 0 -> ax = 0 /\ fx = 0.0001)
    /\ (beta = 0 -> ay = 0 /\ fy = 0.0001)
    /\ balls s' = balls s
    /\ gameInProgress s' = gameInProgress s
    /\ previousTimestamp s' = previousTimestamp s.
Proof.
  intros s'. unfold s', handleDeviceOrientation. cbv zeta.
  cbn [accelerationX accelerationY frictionX frictionY balls gameInProgress
       previousTimestamp].
  num_eval. do 4 eexists.
  do 4 (split; [reflexivity|]).
  set (a := gamma * 0.8 / 180 * PI). set (b := beta * 0.8 / 180 * PI).
  pose proof (SIN_bound a) as Hsa. pose proof (COS_bound a) as Hca.
  pose proof (SIN_bound b) as Hsb. pose proof (COS_bound b) as Hcb.
  pose proof (sin2_cos2 a) as Ha. pose proof (sin2_cos2 b) as Hb.
  pose proof PI_RGT_0 as Hpi.
  unfold Rsqr in *.
  split; [lra|]. split; [lra|]. split; [lra|]. split; [lra|].
  split; [nra|]. split; [nra|].
  split.
  { intros Hg. assert (0 < cos a); [|lra].
    apply cos_gt_0; unfold a; nra. }
  split.
  { intros Hg. assert (0 < cos b); [|lra].
    apply cos_gt_0; unfold b; nra. }
  split.
  { intros ->. unfold a.
    replace (0 * 0.8 / 180 * PI) with 0 by lra. rewrite sin_0, cos_0. lra. }
  split.
  { intros ->. unfold b.
    replace (0 * 0.8 / 180 * PI) with 0 by lra. rewrite sin_0, cos_0. lra. }
  repeat split.
Qed.

Lemma tilt_reading_bounds_witness :
  exists ax fx : R,
    accelerationX (handleDeviceOrientation (Num 0) (Num 90) allInGoal) = Some (Num ax)
    /\ frictionX (handleDeviceOrientation (Num 0) (Num 90) allInGoal) = Some (Num fx)
    /\ ax = 0 /\ fx = 0.0001.
Proof.
  destruct (tilt_reading_bounds 0 90 allInGoal)
    as (ax & ay & fx & fy & Hax & _ & Hfx & _ & _ & _ & _ & _ & _ & _ & _ & _ & H0 & _).
  exists ax, fx. split; [exact Hax|]. split; [exact Hfx|]. apply H0. reflexivity.
Defined.

(** ** The two axes of the velocity update *)

(** X16. The velocity updates of the two axes agree whenever the velocity
    plus its change lies within [-1.5, 1.5], the range of the hard clamp
    that only the x axis applies. *)
Theorem axes_agree_within_hard_clamp (dv fd v : R) :
  - 1.5 <= v + dv <= 1.5 ->
  updateVelocityY (Num dv) (Num fd) (Num v) = updateVelocityX (Num dv) (Num fd) (Num v).
Proof.
  intros Hv. unfold updateVelocityX, updateVelocityY. cbv zeta.
  destruct (Req_dec dv 0) as [->|Hdv].
  - num_cbn. now rewrite Reqb_true.
  - cbn [num_eq]. rewrite Reqb_false by exact Hdv. num_cbn.
    destruct (Rlt_dec 1.5 (v + dv)) as [F|_]; [exfalso; lra|].
    rewrite (Rltb_false 1.5) by lra. num_cbn.
    now rewrite (Rltb_false (v + dv)) by lra.
Qed.

Lemma axes_agree_within_hard_clamp_witness :
  updateVelocityY (Num 0.05) (Num 0.0001) (Num 0.25)
  = updateVelocityX (Num 0.05) (Num 0.0001) (Num 0.25).
Proof. apply axes_agree_within_hard_clamp. lra. Defined.

(** ** The number of balls *)

Lemma handle_length (s : State) (e : Event) :
  e <> Reset -> length (balls (handle s e)) = length (balls s).
Proof.
  intros He. destruct e as [timestamp|gamma beta| |]; cbn [handle].
  - unfold main. destruct (gameInProgress s); cbn [negb]; [|reflexivity].
    destruct (previousTimestamp s) as [prev|]; [|reflexivity].
    assert (length (physics s prev timestamp) = length (balls s)) as Hlen.
    { unfold physics. destruct (accelerationX s), (accelerationY s); try reflexivity.
      rewrite forEach_map. apply length_map. }
    now destruct (forallb inGoal (physics s prev timestamp)).
  - reflexivity.
  - unfold startGame. now destruct (gameInProgress s).
  - contradiction.
Qed.

(** X17. No event but Reset changes the number of balls, and after any
    sequence of events with a Reset in it there are four. *)
Theorem ball_count_kept (events : list Event) (s : State) :
  (Forall (fun e => e <> Reset) events ->
   length (balls (run events s)) = length (balls s))
  /\ (In Reset events -> length (balls (run events s)) = 4%nat).
Proof.
  split.
  - intros Hev. revert s. induction Hev as [|e events He _ IH]; intros s; [reflexivity|].
    rewrite run_cons, IH. now apply handle_length.
  - revert s. induction events as [|e events IH] using rev_ind; intros s Hin.
    + destruct Hin.
    + rewrite run_app. cbn [run fold_left].
      destruct e as [timestamp|gamma beta| |].
      4: reflexivity.
      all: rewrite handle_length by discriminate.
      all: apply IH; apply in_app_or in Hin; destruct Hin as [Hin|[Hin|[]]];
        [exact Hin | discriminate Hin].
Qed.

Lemma ball_count_kept_witness :
  length (balls (run [Start; Tick (Num 0); Orientation (Num 10) (Num 10); Tick (Num 16)]
                     threeBalls)) = 3%nat
  /\ length (balls (run [Start; Reset; Start; Tick (Num 0)] threeBalls)) = 4%nat.
Proof.
  split.
  - destruct (ball_count_kept
                [Start; Tick (Num 0); Orientation (Num 10) (Num 10); Tick (Num 16)]
                threeBalls) as [H _].
    rewrite H; [reflexivity|]. repeat constructor; discriminate.
  - destruct (ball_count_kept [Start; Reset; Start; Tick (Num 0)] threeBalls) as [_ H].
    apply H. right. left. reflexivity.
Defined.

(** ** Friction on a tilted maze *)

(** X18. On a tilted axis the friction is subtracted in the direction of
    the tilt, not against the motion.  When the maze is tilted to the right
    by so little that sin angle < 0.001 cos angle, a ball at rest leaves a
    frame of 16 ms with a negative velocityX: it sets off to the left,
    against the tilt. *)
Theorem slight_tilt_rolls_uphill (gamma : R) (s : State) :
  let angle := gamma * 0.8 / 180 * PI in
  0 < sin angle < 0.001 * cos angle ->
  let s' := handleDeviceOrientation (Num gamma) (Num 0) s in
  exists ax fx u : R,
    accelerationX s' = Some (Num ax) /\ frictionX s' = Some (Num fx)
    /\ 0 < ax
    /\ updateVelocityX (Num ax * Num 1)%js (Num fx * Num 1)%js (Num 0) = Num u
    /\ - 0.0001 <= u < 0.
Proof.
  intros angle [Hpos Hsmall] s'. unfold s', handleDeviceOrientation. cbv zeta.
  cbn [accelerationX frictionX]. num_eval. fold angle.
  do 3 eexists. split; [reflexivity|]. split; [reflexivity|].
  pose proof (COS_bound angle) as Hc.
  split; [lra|].
  unfold updateVelocityX, maxVelocity. cbv zeta.
  repeat (progress (num_eval; cmp_cases)); try (exfalso; lra).
  all: split; [reflexivity|lra].
Qed.

Lemma slight_tilt_angle :
  let angle := 0.05 * 0.8 / 180 * PI in
  0 < sin angle < 0.001 * cos angle.
Proof.
  intros angle.
  pose proof PI_RGT_0 as Hpi. pose proof PI_4 as Hpi4.
  assert (0 < angle < 0.0009) as [Hlo Hhi] by (unfold angle; lra).
  pose proof (sin_lt_x angle Hlo) as Hs.
  assert (0 < sin angle) as Hs0 by (apply sin_gt_0; unfold angle; lra).
  assert (0 < cos angle) as Hc0 by (apply cos_gt_0; unfold angle; lra).
  pose proof (sin2_cos2 angle) as H1. unfold Rsqr in H1.
  split; [exact Hs0|].
  assert (0.9 < cos angle); [|lra].
  destruct (Rlt_dec 0.9 (cos angle)) as [H|H]; [exact H|]. exfalso. nra.
Qed.

Lemma slight_tilt_rolls_uphill_witness :
  exists ax fx u : R,
    accelerationX (handleDeviceOrientation (Num 0.05) (Num 0) allInGoal) = Some (Num ax)
    /\ frictionX (handleDeviceOrientation (Num 0.05) (Num 0) allInGoal) = Some (Num fx)
    /\ 0 < ax
    /\ updateVelocityX (Num ax * Num 1)%js (Num fx * Num 1)%js (Num 0) = Num u
    /\ u < 0.
Proof.
  destruct (slight_tilt_rolls_uphill 0.05 allInGoal slight_tilt_angle)
    as (ax & fx & u & Hax & Hfx & Hpos & Hu & _ & Hneg).
  exists ax, fx, u. repeat split; assumption.
Defined.

(** ** The balls at reset *)

Lemma separated_outOfReach (w : Wall.t) (x y : R) (vx vy : number)
    (nx ny : option number) :
  outOfReach w x y -> separated w (Ball.mk (Num x) (Num y) vx vy nx ny) = true.
Proof.
  intros Hout. destruct (outOfReach_centerline w x y Hout) as (d & Hd & Hfar).
  unfold separated, Ball.point. cbn [Ball.x Ball.y].
  change (Point.mk (Num x) (Num y)) with (pt x y). rewrite Hd.
  unfold wallWidth, ballSize. num_eval. reflexivity.
Qed.

(** X19. At reset every ball keeps the two radii, 10, between its center
    and the centerline of every wall of the maze. *)
Theorem reset_is_clear_of_walls (s : State) :
  Forall (fun ball => Forall (fun wall => separated wall ball = true) walls)
         (balls (resetGame s)).
Proof.
  unfold resetGame. cbn [balls]. rewrite !startCell_pixels.
  repeat (constructor;
          [ match goal with
            | |- Forall (fun wall => separated wall (Ball.mk (Num ?x) (Num ?y) _ _ _ _) = true)
                        walls =>
                apply (Forall_impl (fun w => outOfReach w x y));
                [ walls_out_of_reach
                | intros w Hw; apply separated_outOfReach; exact Hw ]
            end |]).
  constructor.
Qed.
